(** * Driver management system: punch ledger, face match and return forms

    A shallow embedding of the TypeScript sources
    ([lib/types.ts], [lib/firestore.ts], [components/PunchInOut.tsx],
    [components/FaceRecognition.tsx], [components/ReturnForm.tsx],
    [components/AdminDashboard.tsx], [components/DriverDashboard.tsx])
    together with the properties of the punch/return-form life cycle.

    Conventions.
    - A Firestore document read through [snapshot.data()] is schemaless: a
      finite map from field names to values.  TypeScript annotations are
      erased at run time, so the driver record a component holds is kept
      as such a map, and a property read [o.f] yields [None] when the
      field is [undefined].
    - Punch logs and return forms are only ever written through the typed
      [create...] functions and are kept as records.  The [db] handle is
      the one of [lib/firebase.ts] with Firestore's default settings, under
      which [addDoc] throws on an object that holds an [undefined] field
      value; the fields of a stored row are therefore values.
    - The distance compared against the literal [0.4] is an IEEE-754
      binary64 value ([spec_float] with precision 53 and [emax] 1024); the
      face-api.js functions that produce it are parameters.
    - Item quantities are whole counts (the quantity field is an integer
      stepped numeric input; an empty field reads as NaN) and are kept in
      [Z]; arithmetic on them is that of binary64: [number_of] is the
      number a count denotes and [number_add] the addition of numbers.
    - A promise either resolves or rejects: [Resolved a] or [Rejected].
      The store carries a flag telling whether its calls resolve, and the
      supply of generated document ids.
    - Handlers are functions from the component state and the store to the
      new state, the new store and the callbacks they invoke; the current
      time read by [new Date()] is an argument. *)

From Stdlib Require Import ZArith QArith Lia.
From Stdlib Require Import Floats.SpecFloat.
From Stdlib Require Import Sorting.Sorted.
From stdpp Require Import gmap strings list fin_maps.

Local Open Scope string_scope.
Local Open Scope Z_scope.
Local Open Scope list_scope.

(** ** JavaScript values *)

Module JS.

(** IEEE-754 binary64. *)
Definition number : Type := spec_float.
Definition prec : Z := 53.
Definition emax : Z := 1024.

Inductive value : Type :=
| VNull
| VBool (b : bool)
| VNum (x : number)
| VStr (s : string)
| VArr (xs : list number)
| VTime (t : Z).

(** The result of reading a property: [None] is [undefined]. *)
Definition field : Type := option value.

Abbreviation DocumentData := (gmap string value) (only parsing).

(** Truthiness, as used by [!x], [x ? a : b] and [x || y]. *)
Definition truthy (f : field) : bool :=
  match f with
  | None => false
  | Some VNull => false
  | Some (VBool b) => b
  | Some (VNum (S754_zero _)) => false
  | Some (VNum S754_nan) => false
  | Some (VNum _) => true
  | Some (VStr s) => negb (String.eqb s "")
  | Some (VArr _) => true
  | Some (VTime _) => true
  end.

(** [s === f] for a string [s]: no coercion, so only an equal string is
    strictly equal. *)
Definition strict_eq_string (s : string) (f : field) : bool :=
  match f with
  | Some (VStr t) => String.eqb s t
  | _ => false
  end.

(** The outcome of awaiting a promise. *)
Inductive outcome (A : Type) : Type :=
| Resolved (a : A)
| Rejected.
Arguments Resolved {A} a.
Arguments Rejected {A}.

(** The rational denoted by a finite binary64 value (0 otherwise). *)
Definition SF2Q (x : number) : Q :=
  match x with
  | S754_finite s m e =>
      let n := if s then Zneg m else Zpos m in
      match e with
      | Zneg p => n # (2 ^ p)
      | _ => inject_Z (n * 2 ^ e)
      end
  | _ => 0%Q
  end.

(** [x < q] in the extended reals; a NaN is below nothing. *)
Definition lt_real (x : number) (q : Q) : Prop :=
  match x with
  | S754_nan => False
  | S754_infinity s => s = true
  | _ => (SF2Q x < q)%Q
  end.

Definition le_real (q : Q) (x : number) : Prop :=
  match x with
  | S754_nan => False
  | S754_infinity s => s = false
  | _ => (q <= SF2Q x)%Q
  end.

(** The number a whole count denotes: the binary64 value nearest to it. *)
Definition number_of (z : Z) : number :=
  binary_normalize prec emax z 0 false.

(** [x + y] on numbers. *)
Definition number_add (x y : number) : number := SFadd prec emax x y.

End JS.

Export JS.

(** ** lib/types.ts *)

Inductive PunchType : Type := punch_in | punch_out.
Inductive PunchMethod : Type := method_face | method_pin.
Inductive Condition : Type := good | damaged | missing.
Inductive Status : Type := pending | approved | rejected.
Inductive Role : Type := role_admin | role_driver.

(** [PunchLog], a row of the ledger: [driverId] and [driverName] are the
    values [addDoc] stored. *)
Record PunchLog : Type := mkPunchLog {
  pl_id : string;
  pl_driverId : value;
  pl_driverName : value;
  pl_type : PunchType;
  pl_timestamp : Z;
  pl_method : PunchMethod;
  pl_location : option string
}.

(** [Omit<PunchLog, 'id'>] as [handlePunch] builds it: [driverId] and
    [driverName] are read from the looked-up driver record, whose fields
    may be missing. *)
Record PunchLogData : Type := mkPunchLogData {
  pld_driverId : field;
  pld_driverName : field;
  pld_type : PunchType;
  pld_timestamp : Z;
  pld_method : PunchMethod;
  pld_location : option string
}.

(** [{ id, ...logData }] for data none of whose fields is [undefined];
    [None] for the data [addDoc] refuses. *)
Definition punchLog_with_id (id : string) (d : PunchLogData)
  : option PunchLog :=
  match pld_driverId d, pld_driverName d with
  | Some driverId, Some driverName =>
      Some {| pl_id := id; pl_driverId := driverId;
              pl_driverName := driverName; pl_type := pld_type d;
              pl_timestamp := pld_timestamp d; pl_method := pld_method d;
              pl_location := pld_location d |}
  | _, _ => None
  end.

Record ReturnItem : Type := mkReturnItem {
  itemName : string;
  quantity : Z;
  condition : Condition;
  notes : option string
}.

Record ReturnForm : Type := mkReturnForm {
  rf_id : string;
  rf_driverId : value;
  rf_driverName : value;
  rf_punchLogId : string;
  rf_items : list ReturnItem;
  rf_totalItems : number;
  rf_submittedAt : Z;
  rf_status : Status
}.

(** [Omit<ReturnForm, 'id'>]. *)
Record ReturnFormData : Type := mkReturnFormData {
  rfd_driverId : value;
  rfd_driverName : value;
  rfd_punchLogId : string;
  rfd_items : list ReturnItem;
  rfd_totalItems : number;
  rfd_submittedAt : Z;
  rfd_status : Status
}.

(** [{ id, ...formData }]. *)
Definition returnForm_with_id (id : string) (d : ReturnFormData)
  : ReturnForm :=
  {| rf_id := id; rf_driverId := rfd_driverId d;
     rf_driverName := rfd_driverName d; rf_punchLogId := rfd_punchLogId d;
     rf_items := rfd_items d; rf_totalItems := rfd_totalItems d;
     rf_submittedAt := rfd_submittedAt d; rf_status := rfd_status d |}.

Record User : Type := mkUser {
  u_id : string;
  u_email : string;
  u_role : Role;
  u_driverId : option string
}.

(** The subset ['approved' | 'rejected'] accepted by [updateFormStatus]. *)
Inductive Decision : Type := decide_approved | decide_rejected.

Definition status_of (d : Decision) : Status :=
  match d with
  | decide_approved => approved
  | decide_rejected => rejected
  end.

(** [Partial<ReturnForm>]: every field is optional. *)
Record PartialReturnForm : Type := mkPartialReturnForm {
  upd_id : option string;
  upd_driverId : option value;
  upd_driverName : option value;
  upd_punchLogId : option string;
  upd_items : option (list ReturnItem);
  upd_totalItems : option number;
  upd_submittedAt : option Z;
  upd_status : option Status
}.

(** The object literal [{ status }]. *)
Definition only_status (s : Status) : PartialReturnForm :=
  {| upd_id := None; upd_driverId := None; upd_driverName := None;
     upd_punchLogId := None; upd_items := None; upd_totalItems := None;
     upd_submittedAt := None; upd_status := Some s |}.

(** ** lib/firestore.ts over a model of the document store *)

Module Firestore.

(** A stored document: its id and its data. *)
Abbreviation Doc := (string * gmap string value)%type (only parsing).

(** The hosted store.  [reachable] tells whether calls resolve; [autoId]
    with [issued] is the supply of generated document ids.  A collection
    lists its documents in the order an unordered query returns them;
    [punchLogs] is kept in insertion order. *)
Record Store : Type := mkStore {
  reachable : bool;
  autoId : nat -> string;
  issued : nat;
  users : list Doc;
  drivers : list Doc;
  punchLogs : list PunchLog;
  returnForms : list ReturnForm
}.

(** [where(f, "==", s)] for a string [s] on a schemaless document. *)
Definition where_eq (f : string) (s : string) (d : Doc) : bool :=
  strict_eq_string s (snd d !! f).

(** [{ id: snapshot.docs[0].id, ...snapshot.docs[0].data() }]: the spread
    comes last, so a stored field named [id] overrides the document id. *)
Definition spread_with_id (d : Doc) : DocumentData :=
  snd d ∪ {[ "id" := VStr (fst d) ]}.

(** [where("driverId", "==", driverId), where("role", "==", "driver")]. *)
Definition driver_query (driverId : string) (d : Doc) : bool :=
  where_eq "driverId" driverId d && where_eq "role" "driver" d.

Definition getDriverByDriverId (st : Store) (driverId : string)
  : option DocumentData :=
  if reachable st then
    let snapshot :=
      filter (fun d => driver_query driverId d = true) (users st) in
    match snapshot with
    | [] => None
    | d :: _ => Some (spread_with_id d)
    end
  else None.

(** [addDoc(collection(db, "punchLogs"), ...)] followed by
    [return { id: docRef.id, ...logData }].  [addDoc] throws, and the
    [catch] block re-throws, when a field of [logData] is [undefined]. *)
Definition createPunchLog (st : Store) (logData : PunchLogData)
  : outcome PunchLog * Store :=
  if reachable st then
    match punchLog_with_id (autoId st (issued st)) logData with
    | Some row =>
        (Resolved row,
         {| reachable := reachable st; autoId := autoId st;
            issued := S (issued st); users := users st;
            drivers := drivers st; punchLogs := punchLogs st ++ [row];
            returnForms := returnForms st |})
    | None => (Rejected, st)
    end
  else (Rejected, st).

(** [where("driverId", "==", driverId)] on the ledger. *)
Definition of_driver (driverId : string) (p : PunchLog) : bool :=
  strict_eq_string driverId (Some (pl_driverId p)).

(** The order of [orderBy(..., "desc")] on two documents, each given by
    its ordering field and its document id: the first sorts after the
    second when its field is smaller or, the fields being equal, when its
    document id is smaller (Firestore orders documents that tie on the
    ordering field by document id, in the direction of the ordering). *)
Definition sorts_after (k : Z) (id : string) (k' : Z) (id' : string)
  : bool :=
  (k <? k') || ((k =? k') && String.ltb id id').

(** One step of ordering by [timestamp] descending: [p] is placed before
    the first row it does not sort after. *)
Fixpoint insert_desc (p : PunchLog) (l : list PunchLog) : list PunchLog :=
  match l with
  | [] => [p]
  | q :: l' =>
      if sorts_after (pl_timestamp p) (pl_id p) (pl_timestamp q) (pl_id q)
      then q :: insert_desc p l'
      else p :: l
  end.

(** [orderBy("timestamp", "desc")]. *)
Definition orderBy_timestamp_desc (l : list PunchLog) : list PunchLog :=
  foldr insert_desc [] l.

Definition getLastPunchLog (st : Store) (driverId : string)
  : option PunchLog :=
  if reachable st then
    let snapshot :=
      take 1 (orderBy_timestamp_desc
                (filter (fun p => of_driver driverId p = true)
                        (punchLogs st))) in
    match snapshot with
    | [] => None
    | p :: _ => Some p
    end
  else None.

Definition createReturnForm (st : Store) (formData : ReturnFormData)
  : outcome ReturnForm * Store :=
  if reachable st then
    let form := returnForm_with_id (autoId st (issued st)) formData in
    (Resolved form,
     {| reachable := reachable st; autoId := autoId st;
        issued := S (issued st); users := users st; drivers := drivers st;
        punchLogs := punchLogs st;
        returnForms := returnForms st ++ [form] |})
  else (Rejected, st).

(** [updateDoc(docRef, updates)]: the listed fields are overwritten, every
    other field of the document is kept. *)
Definition merge_updates (u : PartialReturnForm) (f : ReturnForm)
  : ReturnForm :=
  {| rf_id := default (rf_id f) (upd_id u);
     rf_driverId := default (rf_driverId f) (upd_driverId u);
     rf_driverName := default (rf_driverName f) (upd_driverName u);
     rf_punchLogId := default (rf_punchLogId f) (upd_punchLogId u);
     rf_items := default (rf_items f) (upd_items u);
     rf_totalItems := default (rf_totalItems f) (upd_totalItems u);
     rf_submittedAt := default (rf_submittedAt f) (upd_submittedAt u);
     rf_status := default (rf_status f) (upd_status u) |}.

Definition has_id (id : string) (f : ReturnForm) : bool :=
  String.eqb (rf_id f) id.

(** [updateDoc] rejects when the store is unreachable or the document does
    not exist. *)
Definition updateReturnForm (st : Store) (id : string)
  (updates : PartialReturnForm) : outcome unit * Store :=
  if reachable st && existsb (has_id id) (returnForms st) then
    (Resolved tt,
     {| reachable := reachable st; autoId := autoId st;
        issued := issued st; users := users st; drivers := drivers st;
        punchLogs := punchLogs st;
        returnForms :=
          map (fun f => if has_id id f then merge_updates updates f else f)
              (returnForms st) |})
  else (Rejected, st).

End Firestore.

Import Firestore.

(** ** components/FaceRecognition.tsx *)

Module FaceRecognition.

(** The two face-api.js entry points used on a descriptor:
    [new Float32Array(x)] and [faceapi.euclideanDistance(a, b)].  Either
    may throw (the distance does so on a length mismatch). *)
Record FaceApi : Type := mkFaceApi {
  Float32Array : value -> outcome (list number);
  euclideanDistance : list number -> list number -> outcome number
}.

Inductive FaceStatus : Type := idle | detecting | verified | failed.

Record Props : Type := mkProps {
  driverFaceDescriptor : field;
  isEnrolling : bool
}.

Record State : Type := mkState {
  isLoaded : bool;
  isDetecting : bool;
  status : FaceStatus
}.

(** The callbacks a run of [detectFace] invokes. *)
Record Calls : Type := mkCalls {
  onFaceVerified : option bool;
  onFaceEnrolled : option (list number)
}.

Definition no_calls : Calls :=
  {| onFaceVerified := None; onFaceEnrolled := None |}.

(** The literal [0.4]: the binary64 value nearest to 4/10. *)
Definition threshold : number :=
  S754_finite false 7205759403792794 (-54).

(** [distance < 0.4]. *)
Definition isMatch (distance : number) : bool := SFltb distance threshold.

(** The [catch] block. *)
Definition caught (s : State) : State * Calls :=
  ({| isLoaded := isLoaded s; isDetecting := false; status := failed |},
   {| onFaceVerified := Some false; onFaceEnrolled := None |}).

(** Neither enrolling nor holding a stored descriptor: no callback runs and
    the status stays at ['detecting']. *)
Definition neither_branch (s : State) : State * Calls :=
  ({| isLoaded := isLoaded s; isDetecting := false; status := detecting |},
   no_calls).

(** [detectFace].  [refs] tells whether the video and canvas elements are
    mounted; [detection] is the outcome of the detection pipeline together
    with the drawing of its overlay: it rejects on a thrown error and
    resolves to [None] when no face is found, to the live descriptor
    otherwise. *)
Definition detectFace (api : FaceApi) (props : Props) (s : State)
  (refs : bool) (detection : outcome (option (list number)))
  : State * Calls :=
  if negb refs || negb (isLoaded s) then (s, no_calls)
  else
    match detection with
    | Rejected => caught s
    | Resolved None =>
        ({| isLoaded := isLoaded s; isDetecting := false; status := failed |},
         {| onFaceVerified := Some false; onFaceEnrolled := None |})
    | Resolved (Some descriptor) =>
        if isEnrolling props then
          ({| isLoaded := isLoaded s; isDetecting := false;
              status := verified |},
           {| onFaceVerified := None; onFaceEnrolled := Some descriptor |})
        else
          match driverFaceDescriptor props with
          | Some stored =>
              if truthy (Some stored) then
                match Float32Array api stored with
                | Rejected => caught s
                | Resolved arr =>
                    match euclideanDistance api descriptor arr with
                    | Rejected => caught s
                    | Resolved distance =>
                        ({| isLoaded := isLoaded s; isDetecting := false;
                            status := if isMatch distance then verified
                                      else failed |},
                         {| onFaceVerified := Some (isMatch distance);
                            onFaceEnrolled := None |})
                    end
                end
              else neither_branch s
          | None => neither_branch s
          end
    end.

End FaceRecognition.

(** ** components/PunchInOut.tsx *)

Module PunchInOut.

Record State : Type := mkState {
  driver : option DocumentData;
  pin : string;
  loading : bool;
  lastPunch : option PunchLog;
  method : PunchMethod
}.

(** What a handler does besides updating its own state: the punch log
    handed to [onPunchSuccess] and the text passed to [alert]. *)
Record Effects : Type := mkEffects {
  onPunchSuccess : option PunchLog;
  alert : option string
}.

Definition no_effects : Effects :=
  {| onPunchSuccess := None; alert := None |}.

(** [user?.driverId] as a condition: absent and empty are both falsy. *)
Definition user_driverId (user : option User) : option string :=
  match user with
  | Some u =>
      match u_driverId u with
      | Some id => if String.eqb id "" then None else Some id
      | None => None
      end
  | None => None
  end.

Definition loadDriverData (user : option User) (st : Store) (s : State)
  : State :=
  match user_driverId user with
  | None => s
  | Some id =>
      match getDriverByDriverId st id with
      | Some driverData =>
          {| driver := Some driverData; pin := pin s; loading := loading s;
             lastPunch := lastPunch s; method := method s |}
      | None => s
      end
  end.

Definition loadLastPunch (user : option User) (st : Store) (s : State)
  : State :=
  match user_driverId user with
  | None => s
  | Some id =>
      match getLastPunchLog st id with
      | Some lastPunchData =>
          {| driver := driver s; pin := pin s; loading := loading s;
             lastPunch := Some lastPunchData; method := method s |}
      | None => s
      end
  end.

(** [handlePunch]; [now] is the value of [new Date()]. *)
Definition handlePunch (s : State) (st : Store) (now : Z)
  (type : PunchType) (method' : PunchMethod) : State * Store * Effects :=
  match driver s with
  | None => (s, st, no_effects)
  | Some d =>
      let punchLog :=
        {| pld_driverId := d !! "driverId"; pld_driverName := d !! "name";
           pld_type := type; pld_timestamp := now; pld_method := method';
           pld_location := None |} in
      match createPunchLog st punchLog with
      | (Resolved newPunchLog, st') =>
          ({| driver := driver s; pin := ""; loading := false;
              lastPunch := Some newPunchLog; method := method s |},
           st',
           {| onPunchSuccess := Some newPunchLog; alert := None |})
      | (Rejected, st') =>
          ({| driver := driver s; pin := pin s; loading := false;
              lastPunch := lastPunch s; method := method s |},
           st', no_effects)
      end
  end.

Definition is_out (t : PunchType) : bool :=
  match t with punch_out => true | punch_in => false end.

(** [!lastPunch || lastPunch.type === 'out' ? 'in' : 'out']. *)
Definition nextPunchType (lastPunch : option PunchLog) : PunchType :=
  if match lastPunch with
     | None => true
     | Some p => is_out (pl_type p)
     end
  then punch_in else punch_out.

(** [onChange={(e) => setPin(e.target.value)}]. *)
Definition setPin (s : State) (entered : string) : State :=
  {| driver := driver s; pin := entered; loading := loading s;
     lastPunch := lastPunch s; method := method s |}.

(** [driver.faceDescriptor], the prop handed to [FaceRecognition]. *)
Definition driver_faceDescriptor (s : State) : field :=
  match driver s with
  | None => None
  | Some d => d !! "faceDescriptor"
  end.

(** [driver?.pin]. *)
Definition driver_pin (s : State) : field :=
  match driver s with
  | None => None
  | Some d => d !! "pin"
  end.

Definition handlePinPunch (s : State) (st : Store) (now : Z)
  : State * Store * Effects :=
  if negb (truthy (driver_pin s))
     || negb (strict_eq_string (pin s) (driver_pin s))
  then (s, st, {| onPunchSuccess := None; alert := Some "Invalid PIN" |})
  else handlePunch s st now (nextPunchType (lastPunch s)) method_pin.

Definition handleFaceVerified (s : State) (st : Store) (now : Z)
  (verified : bool) : State * Store * Effects :=
  if verified
  then handlePunch s st now (nextPunchType (lastPunch s)) method_face
  else (s, st, no_effects).

(** The punch button of the PIN tab is
    [disabled={loading || pin.length < 4}]. *)
Definition pinButtonDisabled (s : State) : bool :=
  loading s || (String.length (pin s) <? 4)%nat.

(** The [FaceRecognition] child is rendered, with
    [driverFaceDescriptor={driver.faceDescriptor}] and no enrolment props,
    once the driver is loaded and the face tab is selected; pressing its
    verify button runs [detectFace], whose [onFaceVerified] call reaches
    [handleFaceVerified]. *)
Definition verifyFace (api : FaceRecognition.FaceApi) (s : State)
  (st : Store) (now : Z) (fs : FaceRecognition.State) (refs : bool)
  (detection : outcome (option (list number)))
  : State * Store * Effects :=
  match driver s, method s with
  | Some d, method_face =>
      let props :=
        {| FaceRecognition.driverFaceDescriptor := driver_faceDescriptor s;
           FaceRecognition.isEnrolling := false |} in
      match FaceRecognition.onFaceVerified
              (snd (FaceRecognition.detectFace api props fs refs detection))
      with
      | Some verified => handleFaceVerified s st now verified
      | None => (s, st, no_effects)
      end
  | _, _ => (s, st, no_effects)
  end.

End PunchInOut.

(** ** components/ReturnForm.tsx *)

Module ReturnFormView.

(** An item as typed into the form.  [raw_quantity] is the field read with
    [valueAsNumber]: [None] is the NaN of an empty field. *)
Record RawItem : Type := mkRawItem {
  raw_itemName : string;
  raw_quantity : option Z;
  raw_condition : string;
  raw_notes : option string
}.

(** The object handed to the resolver: the [items] array and any other
    keys, which [z.object] strips. *)
Record RawFormData : Type := mkRawFormData {
  raw_items : list RawItem;
  raw_other : gmap string value
}.

(** [z.infer<typeof returnFormSchema>]. *)
Record FormData : Type := mkFormData {
  items : list ReturnItem
}.

Inductive Issue : Type :=
| itemName_too_small
| quantity_invalid_type
| quantity_too_small
| condition_invalid_enum_value
| items_too_small.

(** The messages the schema attaches to its checks. *)
Definition message (i : Issue) : option string :=
  match i with
  | itemName_too_small => Some "Item name is required"
  | quantity_too_small => Some "Quantity must be at least 1"
  | items_too_small => Some "At least one item is required"
  | _ => None
  end.

Inductive SafeParse (A : Type) : Type :=
| ParseOk (data : A)
| ParseError (issues : list Issue).
Arguments ParseOk {A} data.
Arguments ParseError {A} issues.

(** [z.enum(['good', 'damaged', 'missing'])]. *)
Definition condition_enum (s : string) : option Condition :=
  if String.eqb s "good" then Some good
  else if String.eqb s "damaged" then Some damaged
  else if String.eqb s "missing" then Some missing
  else None.

(** [z.string().min(1, ...)]. *)
Definition itemName_issues (s : string) : list Issue :=
  if (1 <=? String.length s)%nat then [] else [itemName_too_small].

(** [z.number().min(1, ...)]. *)
Definition quantity_issues (q : option Z) : list Issue :=
  match q with
  | None => [quantity_invalid_type]
  | Some n => if 1 <=? n then [] else [quantity_too_small]
  end.

Definition condition_issues (s : string) : list Issue :=
  match condition_enum s with
  | Some _ => []
  | None => [condition_invalid_enum_value]
  end.

Definition returnItemSchema (r : RawItem) : SafeParse ReturnItem :=
  match itemName_issues (raw_itemName r) ++ quantity_issues (raw_quantity r)
        ++ condition_issues (raw_condition r),
        raw_quantity r, condition_enum (raw_condition r) with
  | [], Some q, Some c =>
      ParseOk {| itemName := raw_itemName r; quantity := q; condition := c;
                 notes := raw_notes r |}
  | issues, _, _ => ParseError issues
  end.

(** The element-wise pass of [z.array(returnItemSchema)]: the parsed items
    and the issues of the items that fail. *)
Fixpoint parse_items (l : list RawItem) : list ReturnItem * list Issue :=
  match l with
  | [] => ([], [])
  | r :: l' =>
      let (parsed, issues) := parse_items l' in
      match returnItemSchema r with
      | ParseOk item => (item :: parsed, issues)
      | ParseError errs => (parsed, errs ++ issues)
      end
  end.

(** [z.object({ items: z.array(returnItemSchema).min(1, ...) })]. *)
Definition returnFormSchema (raw : RawFormData) : SafeParse FormData :=
  let (parsed, issues) := parse_items (raw_items raw) in
  match (if (1 <=? length (raw_items raw))%nat then []
         else [items_too_small]) ++ issues with
  | [] => ParseOk {| items := parsed |}
  | all_issues => ParseError all_issues
  end.

Record State : Type := mkState {
  loading : bool;
  submittedForm : option ReturnForm
}.

(** [onSubmit]; [now] is the value of [new Date()].  The boolean tells
    whether [onFormSubmitted] was called. *)
Definition onSubmit (punchLog : PunchLog) (s : State) (st : Store)
  (now : Z) (data : FormData) : State * Store * bool :=
  let returnForm :=
    {| rfd_driverId := pl_driverId punchLog;
       rfd_driverName := pl_driverName punchLog;
       rfd_punchLogId := pl_id punchLog;
       rfd_items := items data;
       rfd_totalItems :=
         fold_left
           (fun sum item => number_add sum (number_of (quantity item)))
           (items data) (number_of 0);
       rfd_submittedAt := now;
       rfd_status := pending |} in
  match createReturnForm st returnForm with
  | (Resolved newForm, st') =>
      ({| loading := false; submittedForm := Some newForm |}, st', true)
  | (Rejected, st') =>
      ({| loading := false; submittedForm := submittedForm s |}, st', false)
  end.

(** [handleSubmit(onSubmit)]: the resolver runs first and [onSubmit] is
    called with the parsed data only when it succeeds. *)
Definition handleSubmit (punchLog : PunchLog) (s : State) (st : Store)
  (now : Z) (raw : RawFormData) : State * Store * bool :=
  match returnFormSchema raw with
  | ParseOk data => onSubmit punchLog s st now data
  | ParseError _ => (s, st, false)
  end.

End ReturnFormView.

(** ** components/AdminDashboard.tsx *)

Module AdminDashboard.

(** [updateFormStatus] on the [returnForms] state of the dashboard. *)
Definition updateFormStatus (forms : list ReturnForm) (st : Store)
  (formId : string) (status : Decision) : list ReturnForm * Store :=
  match updateReturnForm st formId (only_status (status_of status)) with
  | (Resolved _, st') =>
      (map (fun form =>
              if String.eqb (rf_id form) formId
              then {| rf_id := rf_id form; rf_driverId := rf_driverId form;
                      rf_driverName := rf_driverName form;
                      rf_punchLogId := rf_punchLogId form;
                      rf_items := rf_items form;
                      rf_totalItems := rf_totalItems form;
                      rf_submittedAt := rf_submittedAt form;
                      rf_status := status_of status |}
              else form) forms,
       st')
  | (Rejected, st') => (forms, st')
  end.

End AdminDashboard.

(** ** components/DriverDashboard.tsx *)

Module DriverDashboard.

Record State : Type := mkState {
  currentPunchLog : option PunchLog;
  showReturnForm : bool
}.

Definition handlePunchSuccess (s : State) (punchLog : PunchLog) : State :=
  match pl_type punchLog with
  | punch_in =>
      {| currentPunchLog := Some punchLog; showReturnForm := true |}
  | punch_out =>
      {| currentPunchLog := None; showReturnForm := false |}
  end.

Definition handleFormSubmitted (s : State) : State :=
  {| currentPunchLog := None; showReturnForm := false |}.

(** [{showReturnForm && currentPunchLog && <ReturnForm punchLog=... />}]:
    the punch log the return-form step is rendered for, if any. *)
Definition returnFormSession (s : State) : option PunchLog :=
  if showReturnForm s then currentPunchLog s else None.

(** [{!showReturnForm && <PunchInOut ... />}]. *)
Definition punchPanelShown (s : State) : bool := negb (showReturnForm s).

(** A punch handler of [PunchInOut] run under the dashboard: its
    [onPunchSuccess] call is [handlePunchSuccess]. *)
Definition after_punch (s : State)
  (r : PunchInOut.State * Store * PunchInOut.Effects) : State :=
  match PunchInOut.onPunchSuccess (snd r) with
  | Some punchLog => handlePunchSuccess s punchLog
  | None => s
  end.

End DriverDashboard.

(** ** Specification-side notions *)

(** The sum [q1 + ... + qn] of a list of quantities. *)
Fixpoint sum_of (qs : list Z) : Z :=
  match qs with
  | [] => 0
  | q :: qs' => q + sum_of qs'
  end.

(** An entered item with a non-empty name, a quantity of at least 1 and an
    enumerated condition; the notes are not constrained. *)
Definition acceptable_item (r : ReturnFormView.RawItem) : Prop :=
  ReturnFormView.raw_itemName r <> "" /\
  (exists q, ReturnFormView.raw_quantity r = Some q /\ 1 <= q) /\
  In (ReturnFormView.raw_condition r) ["good"; "damaged"; "missing"].

(** A submission the resolver refuses: it reports issues, and
    [handleSubmit] then calls nothing and writes nothing. *)
Definition refused (raw : ReturnFormView.RawFormData) : Prop :=
  (exists issues,
     ReturnFormView.returnFormSchema raw = ReturnFormView.ParseError issues)
  /\
  forall punchLog s st now,
    ReturnFormView.handleSubmit punchLog s st now raw = (s, st, false).

(** Two forms that agree on every field other than the status. *)
Definition same_but_status (f g : ReturnForm) : Prop :=
  rf_id f = rf_id g /\ rf_driverId f = rf_driverId g /\
  rf_driverName f = rf_driverName g /\ rf_punchLogId f = rf_punchLogId g /\
  rf_items f = rf_items g /\ rf_totalItems f = rf_totalItems g /\
  rf_submittedAt f = rf_submittedAt g.

(** ** Sample data *)

Module Samples.

Definition sample_autoId (n : nat) : string :=
  match n with
  | O => "auto0"
  | S O => "auto1"
  | _ => "auto2"
  end.

(** The document [createUser] writes at sign-up of a driver account. *)
Definition signup_user : Doc :=
  ("uid1",
   list_to_map [("email", VStr "ann@example.com"); ("role", VStr "driver");
                ("driverId", VStr "D1"); ("createdAt", VTime 1000)]).

(** The document [createDriver] writes for the same driver. *)
Definition directory_driver : Doc :=
  ("drv1",
   list_to_map [("name", VStr "Ann"); ("email", VStr "ann@example.com");
                ("driverId", VStr "D1"); ("pin", VStr "1234");
                ("createdAt", VTime 900); ("isActive", VBool true)]).

Definition sample_store : Store :=
  {| reachable := true; autoId := sample_autoId; issued := 0;
     users := [signup_user]; drivers := [directory_driver];
     punchLogs := []; returnForms := [] |}.

(** A looked-up driver record that carries the given PIN. *)
Definition driver_with_pin (p : string) : DocumentData :=
  list_to_map [("id", VStr "uid1"); ("driverId", VStr "D1");
               ("role", VStr "driver"); ("name", VStr "Ann");
               ("pin", VStr p)].

(** A looked-up driver record without PIN and face descriptor. *)
Definition driver_without_credentials : DocumentData :=
  list_to_map [("id", VStr "uid1"); ("driverId", VStr "D1");
               ("role", VStr "driver"); ("name", VStr "Ann")].

Definition panel (d : DocumentData) (entered : string) (m : PunchMethod)
  : PunchInOut.State :=
  {| PunchInOut.driver := Some d; PunchInOut.pin := entered;
     PunchInOut.loading := false; PunchInOut.lastPunch := None;
     PunchInOut.method := m |}.

Definition sample_punch (t : PunchType) (ts : Z) : PunchLog :=
  {| pl_id := "p1"; pl_driverId := VStr "D1";
     pl_driverName := VStr "Ann"; pl_type := t; pl_timestamp := ts;
     pl_method := method_pin; pl_location := None |}.

(** A face API that reports one fixed distance. *)
Definition constant_api (d : number) : FaceRecognition.FaceApi :=
  {| FaceRecognition.Float32Array :=
       fun v => match v with VArr xs => Resolved xs | _ => Rejected end;
     FaceRecognition.euclideanDistance := fun _ _ => Resolved d |}.

(** 1/4 as a binary64 value. *)
Definition quarter : number := S754_finite false 4503599627370496 (-54).

(** The literal [0.55] and the largest binary64 value below [0.4]. *)
Definition distance_055 : number :=
  S754_finite false 4953959590107546 (-53).
Definition just_under_threshold : number :=
  S754_finite false 7205759403792793 (-54).

Definition sample_form (st : Status) : ReturnForm :=
  {| rf_id := "f1"; rf_driverId := VStr "D1";
     rf_driverName := VStr "Ann"; rf_punchLogId := "p1";
     rf_items := [ {| itemName := "crate"; quantity := 2;
                      condition := good; notes := None |} ];
     rf_totalItems := number_of 2; rf_submittedAt := 5000;
     rf_status := st |}.

(** A store holding one return form with the given status. *)
Definition store_with_form (st : Status) : Store :=
  {| reachable := true; autoId := sample_autoId; issued := 1;
     users := [signup_user]; drivers := [directory_driver];
     punchLogs := [sample_punch punch_in 4000];
     returnForms := [sample_form st] |}.

(** Two entered items (2 good, 1 damaged) sent along with a stray
    [totalItems] key of value 99. *)
Definition two_items : ReturnFormView.RawFormData :=
  {| ReturnFormView.raw_items :=
       [ {| ReturnFormView.raw_itemName := "crate";
            ReturnFormView.raw_quantity := Some 2;
            ReturnFormView.raw_condition := "good";
            ReturnFormView.raw_notes := None |};
         {| ReturnFormView.raw_itemName := "pallet";
            ReturnFormView.raw_quantity := Some 1;
            ReturnFormView.raw_condition := "damaged";
            ReturnFormView.raw_notes := Some "corner broken" |} ];
     ReturnFormView.raw_other :=
       {[ "totalItems" := VNum (S754_finite false 6966505673588736 (-46)) ]}
  |}.

Definition fresh_form_view : ReturnFormView.State :=
  {| ReturnFormView.loading := false;
     ReturnFormView.submittedForm := None |}.

End Samples.

(** ** lib/firestore.ts: the remaining operations *)

Module Collections.

(** The store with its [users], respectively [drivers], replaced. *)
Definition with_users (st : Store) (us : list Doc) : Store :=
  {| reachable := reachable st; autoId := autoId st; issued := issued st;
     users := us; drivers := drivers st; punchLogs := punchLogs st;
     returnForms := returnForms st |}.

Definition with_drivers (st : Store) (ds : list Doc) : Store :=
  {| reachable := reachable st; autoId := autoId st; issued := issued st;
     users := users st; drivers := ds; punchLogs := punchLogs st;
     returnForms := returnForms st |}.

(** [getDoc(doc(db, c, id))]: the document stored under [id], if any. *)
Definition getDoc (c : list Doc) (id : string) : option Doc :=
  head (filter (fun d => fst d = id) c).

(** [mapDoc]: [{ id: snapshot.id, ...data }].  A stored timestamp and the
    date it converts to are the same [VTime] instant, so the conversion of
    the date fields leaves the data as it is. *)
Definition mapDoc (d : Doc) (dateFields : list string) : DocumentData :=
  spread_with_id d.

Definition getUser (st : Store) (id : string) : option DocumentData :=
  if reachable st then
    match getDoc (users st) id with
    | Some d => Some (mapDoc d ["createdAt"])
    | None => None
    end
  else None.

Definition getDriver (st : Store) (id : string) : option DocumentData :=
  if reachable st then
    match getDoc (drivers st) id with
    | Some d => Some (mapDoc d ["createdAt"])
    | None => None
    end
  else None.

(** A collection with one more document.  Documents are listed in the
    order of their ids, so the place [pos] of a generated id among the
    others is the store's, not the caller's. *)
Definition place (pos : nat) (d : Doc) (c : list Doc) : list Doc :=
  take pos c ++ d :: drop pos c.

(** [createUser] on an object [userData] whose keys all hold a value;
    [now] is the value of [Timestamp.now()].  An object with an
    [undefined] key is refused by [addDoc]; [Routing.signUp] builds such
    an object and treats that case. *)
Definition createUser (st : Store) (userData : DocumentData) (now : Z)
  (pos : nat) : outcome DocumentData * Store :=
  if reachable st then
    let id := autoId st (issued st) in
    (Resolved (userData ∪ {[ "id" := VStr id ]}),
     {| reachable := reachable st; autoId := autoId st;
        issued := S (issued st);
        users := place pos (id, <["createdAt" := VTime now]> userData)
                   (users st);
        drivers := drivers st; punchLogs := punchLogs st;
        returnForms := returnForms st |})
  else (Rejected, st).

(** [createDriver]; [stamp] is the value of [Timestamp.now()] and [date]
    that of the later [new Date()]. *)
Definition createDriver (st : Store) (driverData : DocumentData)
  (stamp date : Z) (pos : nat) : outcome DocumentData * Store :=
  if reachable st then
    let id := autoId st (issued st) in
    (Resolved (<["isActive" := VBool true]>
                 (<["createdAt" := VTime date]>
                    (driverData ∪ {[ "id" := VStr id ]}))),
     {| reachable := reachable st; autoId := autoId st;
        issued := S (issued st); users := users st;
        drivers := place pos
                     (id, <["isActive" := VBool true]>
                            (<["createdAt" := VTime stamp]> driverData))
                     (drivers st);
        punchLogs := punchLogs st; returnForms := returnForms st |})
  else (Rejected, st).

Definition has_doc (c : list Doc) (id : string) : bool :=
  existsb (fun d => String.eqb (fst d) id) c.

(** [updateDoc(docRef, updates)] on a schemaless collection: the listed
    fields are overwritten, the others kept. *)
Definition updateDoc_in (c : list Doc) (id : string)
  (updates : DocumentData) : list Doc :=
  map (fun d => if String.eqb (fst d) id then (fst d, updates ∪ snd d)
                else d) c.

Definition updateUser (st : Store) (id : string) (updates : DocumentData)
  : outcome unit * Store :=
  if reachable st && has_doc (users st) id
  then (Resolved tt, with_users st (updateDoc_in (users st) id updates))
  else (Rejected, st).

Definition updateDriver (st : Store) (id : string) (updates : DocumentData)
  : outcome unit * Store :=
  if reachable st && has_doc (drivers st) id
  then (Resolved tt, with_drivers st (updateDoc_in (drivers st) id updates))
  else (Rejected, st).

(** [deleteDoc(docRef)] resolves whether or not the document exists. *)
Definition deleteDriver (st : Store) (id : string) : outcome unit * Store :=
  if reachable st
  then (Resolved tt,
        with_drivers st
          (filter (fun d => negb (String.eqb (fst d) id) = true)
                  (drivers st)))
  else (Rejected, st).

(** [if (driverId)]: an absent and an empty id both select no filter. *)
Definition given (driverId : option string) : option string :=
  match driverId with
  | Some id => if String.eqb id "" then None else Some id
  | None => None
  end.

Definition getPunchLogs (st : Store) (driverId : option string)
  : list PunchLog :=
  if reachable st then
    orderBy_timestamp_desc
      (match given driverId with
       | Some id => filter (fun p => of_driver id p = true) (punchLogs st)
       | None => punchLogs st
       end)
  else [].

(** Ordering by a key, descending, as [orderBy(key, "desc")]; [id] is the
    document id. *)
Fixpoint insert_desc_by {A : Type} (key : A -> Z) (id : A -> string)
  (x : A) (l : list A) : list A :=
  match l with
  | [] => [x]
  | y :: l' =>
      if sorts_after (key x) (id x) (key y) (id y)
      then y :: insert_desc_by key id x l'
      else x :: l
  end.

Definition orderBy_desc {A : Type} (key : A -> Z) (id : A -> string)
  (l : list A) : list A :=
  foldr (insert_desc_by key id) [] l.

Definition form_of_driver (driverId : string) (f : ReturnForm) : bool :=
  strict_eq_string driverId (Some (rf_driverId f)).

Definition getReturnForms (st : Store) (driverId : option string)
  : list ReturnForm :=
  if reachable st then
    orderBy_desc rf_submittedAt rf_id
      (match given driverId with
       | Some id =>
           filter (fun f => form_of_driver id f = true) (returnForms st)
       | None => returnForms st
       end)
  else [].

(** What the listener of [subscribeToReturnForms], respectively
    [subscribeToPunchLogs], hands to its callback for a store state. *)
Definition subscribeToReturnForms (st : Store) : list ReturnForm :=
  orderBy_desc rf_submittedAt rf_id (returnForms st).

Definition subscribeToPunchLogs (st : Store) : list PunchLog :=
  orderBy_timestamp_desc (punchLogs st).

End Collections.

(** ** lib/faceapi-models.ts *)

Module FaceApiModels.

Inductive Promise : Type := Pending | Fulfilled | Failed.

(** The module variables, and the number of times the loading of the
    model files was begun. *)
Record State : Type := mkState {
  modelsLoaded : bool;
  loadingPromise : option Promise;
  loadsBegun : nat
}.

Definition initial : State :=
  {| modelsLoaded := false; loadingPromise := None; loadsBegun := 0 |}.

(** What a call of [loadFaceApiModels] returns: at once, or the shared
    promise. *)
Inductive Returned : Type := Nothing | Shared.

Definition loadFaceApiModels (s : State) : State * Returned :=
  if modelsLoaded s then (s, Nothing)
  else
    match loadingPromise s with
    | Some _ => (s, Shared)
    | None =>
        ({| modelsLoaded := false; loadingPromise := Some Pending;
            loadsBegun := S (loadsBegun s) |}, Shared)
    end.

(** The pending load settles: on success the flag is set, on failure the
    error is re-thrown and the promise rejects. *)
Definition settle (ok : bool) (s : State) : State :=
  match loadingPromise s with
  | Some Pending =>
      if ok
      then {| modelsLoaded := true; loadingPromise := Some Fulfilled;
              loadsBegun := loadsBegun s |}
      else {| modelsLoaded := modelsLoaded s;
              loadingPromise := Some Failed; loadsBegun := loadsBegun s |}
  | _ => s
  end.

Definition areModelsLoaded (s : State) : bool := modelsLoaded s.

Inductive Event : Type := Call | Settle (ok : bool).

Definition step (s : State) (e : Event) : State :=
  match e with
  | Call => fst (loadFaceApiModels s)
  | Settle ok => settle ok s
  end.

Definition run (evs : list Event) (s : State) : State :=
  fold_left step evs s.

End FaceApiModels.

(** ** components/FaceRecognition.tsx: the camera *)

Module Camera.

(** The [stream] state of the component (a handle of the media stream),
    the streams whose tracks are running on the device, and the number of
    [getUserMedia] calls that have not settled yet. *)
Record State : Type := mkState {
  stream : option nat;
  running : gset nat;
  requested : nat
}.

(** [useState<MediaStream | null>(null)]. *)
Definition initial_stream : option nat := None.

Definition initial : State :=
  {| stream := initial_stream; running := ∅; requested := 0 |}.

(** [startCamera] up to its [await]: a call of [getUserMedia] is under
    way and the state is as it was. *)
Definition startCamera (s : State) : State :=
  {| stream := stream s; running := running s;
     requested := S (requested s) |}.

(** The rest of [startCamera], run when a call of [getUserMedia] settles
    with [media]: a resolved stream runs from then on and is stored by
    [setStream]; a rejection is logged. *)
Definition resume (s : State) (media : outcome nat) : State :=
  match requested s with
  | O => s
  | S n =>
      match media with
      | Resolved mediaStream =>
          {| stream := Some mediaStream;
             running := running s ∪ {[ mediaStream ]}; requested := n |}
      | Rejected =>
          {| stream := stream s; running := running s; requested := n |}
      end
  end.

Definition stopCamera (s : State) : State :=
  match stream s with
  | Some h =>
      {| stream := None; running := running s ∖ {[ h ]};
         requested := requested s |}
  | None => s
  end.

(** The clean-up function returned by the mount effect, for the value of
    [stream] it closes over. *)
Definition cleanup (captured : option nat) (s : State) : State :=
  match captured with
  | Some h =>
      {| stream := stream s; running := running s ∖ {[ h ]};
         requested := requested s |}
  | None => s
  end.

(** The effect has an empty dependency list: it runs in the first render
    only, so its clean-up closes over the [stream] of that render. *)
Definition unmount (s : State) : State := cleanup initial_stream s.

(** [disabled={!!stream || !isLoaded}] and [disabled={!stream}]. *)
Definition startDisabled (isLoaded : bool) (s : State) : bool :=
  bool_decide (is_Some (stream s)) || negb isLoaded.

Definition stopDisabled (s : State) : bool :=
  negb (bool_decide (is_Some (stream s))).

(** What happens to the mounted component: a press of Start Camera or of
    Stop Camera, which is inert while the button is disabled, and the
    settling of a [getUserMedia] call. *)
Inductive Event : Type :=
| PressStart
| Settled (media : outcome nat)
| PressStop.

(** [isLoaded] is the value of that state when the event happens. *)
Definition step (s : State) (e : bool * Event) : State :=
  match snd e with
  | PressStart => if startDisabled (fst e) s then s else startCamera s
  | Settled media => resume s media
  | PressStop => if stopDisabled s then s else stopCamera s
  end.

Definition run (evs : list (bool * Event)) (s : State) : State :=
  fold_left step evs s.

End Camera.

(** ** components/PunchInOut.tsx: status and punch button *)

Module PunchPanel.

(** [lastPunch?.type === 'in']. *)
Definition isLoggedIn (lastPunch : option PunchLog) : bool :=
  match lastPunch with
  | Some p => negb (PunchInOut.is_out (pl_type p))
  | None => false
  end.

(** A press of the punch button, which is inert while disabled. *)
Definition pressPunchButton (s : PunchInOut.State) (st : Store) (now : Z)
  : PunchInOut.State * Store * PunchInOut.Effects :=
  if PunchInOut.pinButtonDisabled s then (s, st, PunchInOut.no_effects)
  else PunchInOut.handlePinPunch s st now.

(** [maxLength={6}] of the PIN field. *)
Definition pinMaxLength : nat := 6.

End PunchPanel.

(** ** components/ReturnForm.tsx: the field array and the shown total *)

Module FieldArray.

(** [{ itemName: '', quantity: 1, condition: 'good', notes: '' }]. *)
Definition blankItem : ReturnFormView.RawItem :=
  {| ReturnFormView.raw_itemName := "";
     ReturnFormView.raw_quantity := Some 1;
     ReturnFormView.raw_condition := "good";
     ReturnFormView.raw_notes := Some "" |}.

Definition defaultValues : list ReturnFormView.RawItem := [blankItem].

(** The "Add Another Item" button. *)
Definition append (fields : list ReturnFormView.RawItem)
  : list ReturnFormView.RawItem := fields ++ [blankItem].

(** The remove button of item [index], rendered when
    [fields.length > 1]. *)
Definition removeShown (fields : list ReturnFormView.RawItem) : bool :=
  (1 <? length fields)%nat.

Definition pressRemove (fields : list ReturnFormView.RawItem) (index : nat)
  : list ReturnFormView.RawItem :=
  if removeShown fields then delete index fields else fields.

(** Typing into the inputs of item [index]. *)
Definition edit (fields : list ReturnFormView.RawItem) (index : nat)
  (r : ReturnFormView.RawItem) : list ReturnFormView.RawItem :=
  <[index := r]> fields.

Inductive Action : Type :=
| Append
| Remove (index : nat)
| Edit (index : nat) (r : ReturnFormView.RawItem).

Definition act (fields : list ReturnFormView.RawItem) (a : Action)
  : list ReturnFormView.RawItem :=
  match a with
  | Append => append fields
  | Remove index => pressRemove fields index
  | Edit index r => edit fields index r
  end.

Definition run (actions : list Action)
  : list ReturnFormView.RawItem := fold_left act actions defaultValues.

(** [item.quantity || 0]. *)
Definition quantity_or_0 (q : option Z) : Z :=
  match q with
  | Some n => if n =? 0 then 0 else n
  | None => 0
  end.

(** The total shown in the badge:
    [watchedItems.reduce((sum, item) => sum + (item.quantity || 0), 0)]. *)
Definition shownTotal (watchedItems : list ReturnFormView.RawItem)
  : number :=
  fold_left
    (fun sum item =>
       number_add sum
         (number_of (quantity_or_0 (ReturnFormView.raw_quantity item))))
    watchedItems (number_of 0).

End FieldArray.

(** ** components/AdminDashboard.tsx: lists and buttons *)

Module AdminView.

Definition is_pending (form : ReturnForm) : bool :=
  match rf_status form with
  | pending => true
  | _ => false
  end.

(** [returnForms.filter(form => form.status === 'pending')]. *)
Definition pendingForms (returnForms : list ReturnForm)
  : list ReturnForm :=
  filter (fun form => is_pending form = true) returnForms.

(** The Approve and Reject buttons of a form card are rendered under
    [form.status === 'pending']; a press calls
    [updateFormStatus(form.id, ...)]. *)
Definition pressDecision (forms : list ReturnForm) (st : Store)
  (form : ReturnForm) (status : Decision) : list ReturnForm * Store :=
  if is_pending form
  then AdminDashboard.updateFormStatus forms st (rf_id form) status
  else (forms, st).

(** [form.items.slice(0, 3)] and the count of the "+n more items" line,
    shown when [form.items.length > 3]. *)
Definition shownItems (form : ReturnForm) : list ReturnItem :=
  take 3 (rf_items form).

Definition moreItems (form : ReturnForm) : option nat :=
  if (3 <? length (rf_items form))%nat
  then Some (length (rf_items form) - 3)%nat
  else None.

End AdminView.

(** ** components/DriverDashboard.tsx: the flow of a session *)

Module Session.

Definition initial : DriverDashboard.State :=
  {| DriverDashboard.currentPunchLog := None;
     DriverDashboard.showReturnForm := false |}.

Inductive Event : Type :=
| PunchSucceeded (punchLog : PunchLog)
| FormSubmitted.

Definition step (s : DriverDashboard.State) (e : Event)
  : DriverDashboard.State :=
  match e with
  | PunchSucceeded punchLog => DriverDashboard.handlePunchSuccess s punchLog
  | FormSubmitted => DriverDashboard.handleFormSubmitted s
  end.

Definition run (evs : list Event) : DriverDashboard.State :=
  fold_left step evs initial.

(** The return form is rendered under [showReturnForm && currentPunchLog]. *)
Definition returnFormShown (s : DriverDashboard.State) : bool :=
  DriverDashboard.showReturnForm s
  && bool_decide (is_Some (DriverDashboard.currentPunchLog s)).

End Session.

(** ** contexts/AuthContext.tsx, components/ProtectedRoute.tsx,
       app/dashboard/page.tsx, app/login/page.tsx *)

Module Routing.

Record AuthState : Type := mkAuthState {
  user : option DocumentData;
  firebaseUser : option string;
  loading : bool
}.

Definition initial : AuthState :=
  {| user := None; firebaseUser := None; loading := true |}.

(** The [onAuthStateChanged] callback; [uid] is the identity of the signed
    in account, [None] after a sign-out. *)
Definition onAuthStateChanged (st : Store) (s : AuthState)
  (uid : option string) : AuthState :=
  match uid with
  | Some id =>
      {| user := match Collections.getUser st id with
                 | Some userData => Some userData
                 | None => user s
                 end;
         firebaseUser := Some id; loading := false |}
  | None => {| user := None; firebaseUser := None; loading := false |}
  end.

Definition role_name (r : Role) : string :=
  match r with
  | role_admin => "admin"
  | role_driver => "driver"
  end.

(** [requiredRole && user.role !== requiredRole]. *)
Definition role_mismatch (u : gmap string value)
  (requiredRole : option Role) : bool :=
  match requiredRole with
  | Some r => negb (strict_eq_string (role_name r) (u !! "role"))
  | None => false
  end.

(** The effect of [ProtectedRoute]: the path pushed to the router. *)
Definition redirect (s : AuthState) (requiredRole : option Role)
  : option string :=
  if loading s then None
  else
    match user s with
    | None => Some "/login"
    | Some u =>
        if role_mismatch u requiredRole then Some "/unauthorized" else None
    end.

Inductive Rendered : Type := Spinner | Blank | Children.

Definition ProtectedRoute (s : AuthState) (requiredRole : option Role)
  : Rendered :=
  if loading s then Spinner
  else
    match user s with
    | None => Blank
    | Some u => if role_mismatch u requiredRole then Blank else Children
    end.

Inductive Dashboard : Type := AdminDashboardView | DriverDashboardView.

(** [DashboardPage]: the dashboard inside a [ProtectedRoute] without a
    required role, chosen by [user?.role === 'admin']. *)
Definition DashboardPage (s : AuthState) : option Dashboard :=
  match ProtectedRoute s None with
  | Children =>
      Some (if strict_eq_string "admin"
                 (match user s with Some u => u !! "role" | None => None end)
            then AdminDashboardView else DriverDashboardView)
  | _ => None
  end.

Record SignUpData : Type := mkSignUpData {
  email : string;
  password : string;
  confirmPassword : string;
  role : Role;
  driverId : string
}.

(** The arguments of a [signUp] call. *)
Record SignUpCall : Type := mkSignUpCall {
  call_email : string;
  call_password : string;
  call_role : Role;
  call_driverId : option string
}.

(** What [handleSignUp] leaves behind: the [error] state, the call made
    to [signUp] if any, and whether the router was sent to the
    dashboard. *)
Record SignUpResult : Type := mkSignUpResult {
  error : string;
  called : option SignUpCall;
  toDashboard : bool
}.

(** [signUp] of the auth context.  [credential] is the outcome of
    [createUserWithEmailAndPassword], the uid of the new account.  The
    object handed to [createUser] holds [driverId: undefined] unless the
    role is ['driver'] and a driver id was passed; [addDoc] throws on that
    object, [createUser] re-throws and the promise of [signUp] rejects. *)
Definition signUp (st : Store) (credential : outcome string)
  (call : SignUpCall) (now : Z) (pos : nat) : outcome unit * Store :=
  match credential with
  | Rejected => (Rejected, st)
  | Resolved uid =>
      match match call_role call with
            | role_driver => call_driverId call
            | role_admin => None
            end
      with
      | Some driverId =>
          let userData : gmap string value :=
            {[ "id" := VStr uid; "email" := VStr (call_email call);
               "role" := VStr (role_name (call_role call));
               "driverId" := VStr driverId ]} in
          match Collections.createUser st userData now pos with
          | (Resolved _, st') => (Resolved tt, st')
          | (Rejected, st') => (Rejected, st')
          end
      | None => (Rejected, st)
      end
  end.

(** [handleSignUp]; [signUp] yields [None] when it resolves and the
    [message] of the thrown error when it rejects ([None] again inside
    when the error has none). *)
Definition handleSignUp (signUp : SignUpCall -> option (option string))
  (signUpData : SignUpData) : SignUpResult :=
  if negb (String.eqb (password signUpData) (confirmPassword signUpData))
  then {| error := "Passwords do not match"; called := None;
          toDashboard := false |}
  else if match role signUpData with
          | role_driver => String.eqb (driverId signUpData) ""
          | role_admin => false
          end
  then {| error := "Driver ID is required for driver accounts";
          called := None; toDashboard := false |}
  else
    let call :=
      {| call_email := email signUpData;
         call_password := password signUpData;
         call_role := role signUpData;
         call_driverId := match role signUpData with
                          | role_driver => Some (driverId signUpData)
                          | role_admin => None
                          end |} in
    match signUp call with
    | None => {| error := ""; called := Some call; toDashboard := true |}
    | Some message =>
        {| error := match message with
                    | Some m =>
                        if String.eqb m "" then "Failed to create account"
                        else m
                    | None => "Failed to create account"
                    end;
           called := Some call; toDashboard := false |}
    end.

End Routing.

(** ** Further sample data *)

Module MoreSamples.

(** The record the lookup returns for the signed-up sample user. *)
Definition signup_record : gmap string value :=
  list_to_map [("id", VStr "uid1"); ("email", VStr "ann@example.com");
               ("role", VStr "driver"); ("driverId", VStr "D1");
               ("createdAt", VTime 1000)].

Definition loaded_face : FaceRecognition.State :=
  {| FaceRecognition.isLoaded := true;
     FaceRecognition.isDetecting := false;
     FaceRecognition.status := FaceRecognition.idle |}.

(** A looked-up driver record with a PIN and a stored descriptor. *)
Definition enrolled_driver : gmap string value :=
  list_to_map [("id", VStr "uid1"); ("driverId", VStr "D1");
               ("role", VStr "driver"); ("name", VStr "Ann");
               ("pin", VStr "1234"); ("faceDescriptor", VArr [])].

(** The object [signUp] hands to [createUser] for a driver account. *)
Definition signup_userData : gmap string value :=
  list_to_map [("id", VStr "uid7"); ("email", VStr "bob@example.com");
               ("role", VStr "driver"); ("driverId", VStr "D7")].

(** Three entered items of quantities [2^53], 1 and 1. *)
Definition large_items : ReturnFormView.RawFormData :=
  {| ReturnFormView.raw_items :=
       [ {| ReturnFormView.raw_itemName := "bolt";
            ReturnFormView.raw_quantity := Some 9007199254740992;
            ReturnFormView.raw_condition := "good";
            ReturnFormView.raw_notes := None |};
         {| ReturnFormView.raw_itemName := "crate";
            ReturnFormView.raw_quantity := Some 1;
            ReturnFormView.raw_condition := "good";
            ReturnFormView.raw_notes := None |};
         {| ReturnFormView.raw_itemName := "pallet";
            ReturnFormView.raw_quantity := Some 1;
            ReturnFormView.raw_condition := "good";
            ReturnFormView.raw_notes := None |} ];
     ReturnFormView.raw_other := ∅ |}.

(** The [signUp] call of the sign-up form for that driver account. *)
Definition signup_call : Routing.SignUpCall :=
  {| Routing.call_email := "bob@example.com";
     Routing.call_password := "secret";
     Routing.call_role := role_driver;
     Routing.call_driverId := Some "D7" |}.

Definition new_driverData : gmap string value :=
  list_to_map [("name", VStr "Bob"); ("email", VStr "bob@example.com");
               ("driverId", VStr "D7"); ("pin", VStr "4321");
               ("isActive", VBool false)].

End MoreSamples.

(** * Properties *)

(** ** Binary64 values and the threshold *)

Section Binary64.

Lemma digits2_pos_size (m : positive) : digits2_pos m = Pos.size m.
Proof. induction m as [m IH | m IH |]; simpl; congruence. Qed.

Lemma pos_lt_pow2_size (m : positive) : Zpos m < 2 ^ Zpos (Pos.size m).
Proof.
  pose proof (Pos.size_gt m) as H.
  apply Pos2Z.pos_lt_pos in H. now rewrite Pos2Z.inj_pow in H.
Qed.

Lemma pow2_size_le_double (m : positive) :
  2 ^ Zpos (Pos.size m) <= 2 * Zpos m.
Proof.
  pose proof (Pos.size_le m) as H.
  apply Pos2Z.pos_le_pos in H. rewrite Pos2Z.inj_pow in H.
  now rewrite Pos2Z.inj_xO in H.
Qed.

(** A valid finite binary64 value has a mantissa below [2^53], an exponent
    of at least [-1074], and is normalised unless its exponent is the
    least one. *)
Lemma valid_finite_bounds (s : bool) (m : positive) (e : Z) :
  valid_binary prec emax (S754_finite s m e) = true ->
  Zpos m < 2 ^ 53 /\ -1074 <= e /\ (e = -1074 \/ 2 ^ 52 <= Zpos m).
Proof.
  unfold valid_binary, bounded, canonical_mantissa, fexp, emin, prec, emax.
  rewrite digits2_pos_size. intros H.
  apply andb_prop in H as [H _]. apply Z.eqb_eq in H.
  pose proof (pos_lt_pow2_size m) as Hlt.
  pose proof (pow2_size_le_double m) as Hle.
  assert (Hsz : Zpos (Pos.size m) <= 53) by lia.
  split.
  - eapply Z.lt_le_trans; [exact Hlt |].
    apply Z.pow_le_mono_r; lia.
  - split; [lia |].
    destruct (Z.eq_dec e (-1074)) as [-> | Hne]; [now left | right].
    assert (Heq : Zpos (Pos.size m) = 53) by lia.
    rewrite Heq in Hle. change (2 ^ 53) with (2 * 2 ^ 52) in Hle. lia.
Qed.

Lemma pos_pow2_Z (p : positive) : Zpos (2 ^ p) = 2 ^ Zpos p.
Proof. now rewrite Pos2Z.inj_pow. Qed.

(** [isMatch] on a finite value, by sign, exponent and mantissa. *)
Lemma isMatch_finite (s : bool) (m : positive) (e : Z) :
  FaceRecognition.isMatch (S754_finite s m e) =
  if s then true else
  match e ?= -54 with
  | Lt => true
  | Gt => false
  | Eq => match (m ?= 7205759403792794)%positive with
          | Lt => true
          | _ => false
          end
  end.
Proof.
  unfold FaceRecognition.isMatch, FaceRecognition.threshold, SFltb, SFcompare.
  unfold Pos.compare.
  destruct s; [reflexivity |].
  generalize (e ?= -54). intros c. destruct c; reflexivity.
Qed.

(** The comparison of a valid non-negative finite value with the
    threshold agrees with the comparison of its value with 4/10. *)
Lemma isMatch_finite_nonneg (m : positive) (e : Z) :
  Zpos m < 2 ^ 53 -> (e = -1074 \/ 2 ^ 52 <= Zpos m) ->
  FaceRecognition.isMatch (S754_finite false m e) = true <->
  (SF2Q (S754_finite false m e) < 4 # 10)%Q.
Proof.
  intros Hm Hnorm. rewrite isMatch_finite.
  destruct (Z.compare_spec e (-54)) as [-> | Hlt | Hgt].
  - unfold SF2Q, Qlt; cbn [Qnum Qden]. rewrite pos_pow2_Z.
    change (2 ^ 54) with 18014398509481984.
    destruct (Pos.compare_spec m 7205759403792794) as [-> | H | H].
    + split; [discriminate | lia].
    + split; [intros _ | reflexivity].
      apply Pos2Z.pos_lt_pos in H. lia.
    + split; [discriminate | intros H'; exfalso].
      apply Pos2Z.pos_lt_pos in H. lia.
  - split; [intros _ | reflexivity].
    destruct e as [| p | p]; try lia.
    unfold SF2Q, Qlt; cbn [Qnum Qden]. rewrite pos_pow2_Z.
    assert (H55 : 2 ^ 55 <= 2 ^ Zpos p) by (apply Z.pow_le_mono_r; lia).
    change (2 ^ 55) with 36028797018963968 in H55.
    change (2 ^ 53) with 9007199254740992 in Hm. lia.
  - split; [discriminate | intros H; exfalso].
    destruct Hnorm as [-> | Hnorm]; [lia |].
    change (2 ^ 52) with 4503599627370496 in Hnorm.
    destruct e as [| p | p]; unfold SF2Q, Qlt in H; cbn [Qnum Qden inject_Z] in H.
    + lia.
    + assert (0 < 2 ^ Zpos p) by (apply Z.pow_pos_nonneg; lia). nia.
    + rewrite pos_pow2_Z in H.
      assert (H53 : 2 ^ Zpos p <= 2 ^ 53) by (apply Z.pow_le_mono_r; lia).
      change (2 ^ 53) with 9007199254740992 in H53. lia.
Qed.

Lemma finite_negative_below (m : positive) (e : Z) :
  (SF2Q (S754_finite true m e) < 4 # 10)%Q.
Proof.
  destruct e as [| p | p]; unfold SF2Q, Qlt; cbn [Qnum Qden inject_Z].
  - lia.
  - assert (0 < 2 ^ Zpos p) by (apply Z.pow_pos_nonneg; lia). nia.
  - lia.
Qed.

(** [distance < 0.4] in binary64 is exactly [distance < 4/10]. *)
Lemma isMatch_iff_lt_real (distance : number) :
  valid_binary prec emax distance = true ->
  FaceRecognition.isMatch distance = true <-> lt_real distance (4 # 10).
Proof.
  intros Hv. destruct distance as [s | s | | s m e].
  - destruct s; cbn; split; intros _; reflexivity.
  - destruct s; cbn; split; congruence.
  - cbn. split; [discriminate | tauto].
  - destruct s.
    + split; [intros _; apply finite_negative_below | reflexivity].
    + apply valid_finite_bounds in Hv as (Hm & _ & Hn).
      unfold lt_real. now apply isMatch_finite_nonneg.
Qed.

Lemma le_real_not_lt_real (q : Q) (x : number) :
  le_real q x -> ~ lt_real x q.
Proof.
  destruct x as [s | s | | s m e]; cbn [le_real lt_real]; intros H H';
    try (apply Qle_not_lt in H; contradiction); try congruence.
Qed.

(** The threshold is a valid binary64 value within half a unit in the last
    place ([2^-55]) of 4/10, hence the value the literal [0.4] denotes. *)
Lemma threshold_is_literal :
  valid_binary prec emax FaceRecognition.threshold = true /\
  (4 # 10 < SF2Q FaceRecognition.threshold)%Q /\
  (SF2Q FaceRecognition.threshold - (4 # 10) < 1 # 2 ^ 55)%Q.
Proof. repeat split. Qed.

Lemma iter_pos_iter {A} (f : A -> A) (p : positive) (x : A) :
  SpecFloat.iter_pos f p x = Pos.iter f x p.
Proof.
  revert x. induction p as [p IH | p IH |]; intros x; cbn [SpecFloat.iter_pos Pos.iter].
  - rewrite !IH. rewrite <- !Pos.iter_swap. reflexivity.
  - rewrite !IH. reflexivity.
  - reflexivity.
Qed.

Lemma shift_pos_succ (p m : positive) :
  shift_pos (Pos.succ p) m = xO (shift_pos p m).
Proof. unfold shift_pos. now rewrite Pos.iter_succ. Qed.

Lemma shift_pos_Z (p m : positive) :
  Zpos (shift_pos p m) = Zpos m * 2 ^ Zpos p.
Proof.
  induction p as [| p IH] using Pos.peano_ind.
  - unfold shift_pos. cbn. lia.
  - rewrite shift_pos_succ, Pos2Z.inj_xO, IH, Pos2Z.inj_succ.
    rewrite Z.pow_succ_r by lia. lia.
Qed.

Lemma shift_pos_size (p m : positive) :
  Pos.size (shift_pos p m) = (Pos.size m + p)%positive.
Proof.
  induction p as [| p IH] using Pos.peano_ind.
  - unfold shift_pos. cbn. lia.
  - rewrite shift_pos_succ. cbn [Pos.size]. rewrite IH. lia.
Qed.

Lemma shr_exact (p m : positive) :
  SpecFloat.iter_pos shr_1 p (Build_shr_record (Zpos (shift_pos p m)) false false)
  = Build_shr_record (Zpos m) false false.
Proof.
  rewrite iter_pos_iter.
  induction p as [| p IH] using Pos.peano_ind.
  - reflexivity.
  - rewrite Pos.iter_succ_r, shift_pos_succ. cbn [shr_1 orb]. exact IH.
Qed.

(** Rounding a value that a 53-bit mantissa represents is exact. *)
Lemma binary_round_aux_exact (m m' : positive) (e e' : Z) :
  Pos.size m' = 53%positive -> -1074 <= e' <= 971 ->
  e <= e' -> Zpos m = Zpos m' * 2 ^ (e' - e) ->
  binary_round_aux prec emax false (Zpos m) e loc_Exact
  = S754_finite false m' e'.
Proof.
  intros Hs He Hle Hm.
  assert (Hsz : Zdigits2 (Zpos m) + e = 53 + e').
  { destruct (e' - e) as [| p | p] eqn:Hk; try lia.
    - assert (m = m') by lia. subst m. cbn [Zdigits2].
      rewrite digits2_pos_size, Hs. lia.
    - rewrite <- shift_pos_Z in Hm. injection Hm as ->.
      cbn [Zdigits2]. rewrite digits2_pos_size, shift_pos_size, Hs. lia. }
  unfold binary_round_aux, shr_fexp. rewrite Hsz.
  assert (Hf : fexp prec emax (53 + e') = e').
  { unfold fexp, emin, prec, emax. lia. }
  rewrite Hf. cbn [shr_record_of_loc].
  assert (Hshr : shr (Build_shr_record (Zpos m) false false) e (e' - e)
                 = (Build_shr_record (Zpos m') false false, e')).
  { unfold shr. destruct (e' - e) as [| p | p] eqn:Hk; try lia.
    - assert (m = m') by lia. subst m. f_equal. lia.
    - rewrite <- shift_pos_Z in Hm. injection Hm as ->.
      rewrite shr_exact. f_equal. lia. }
  rewrite Hshr. cbn [shr_m loc_of_shr_record round_nearest_even].
  cbn [Zdigits2]. rewrite digits2_pos_size, Hs.
  change (Zpos 53 + e') with (53 + e'). rewrite Hf.
  replace (e' - e') with 0 by lia. cbn [shr shr_m].
  unfold emax, prec.
  destruct (Z.leb_spec e' (1024 - 53)); [reflexivity | lia].
Qed.

Lemma binary_round_exact (m m' : positive) (e e' : Z) :
  Pos.size m' = 53%positive -> -1074 <= e' <= 971 ->
  (e <= e' /\ Zpos m = Zpos m' * 2 ^ (e' - e)) \/
  (e' < e /\ Zpos m' = Zpos m * 2 ^ (e - e')) ->
  binary_round prec emax false m e = S754_finite false m' e'.
Proof.
  intros Hs He H. unfold binary_round.
  assert (Hsz : Zpos (digits2_pos m) + e = 53 + e').
  { rewrite digits2_pos_size. destruct H as [[Hle Hm] | [Hlt Hm]].
    - destruct (e' - e) as [| p | p] eqn:Hk; try lia.
      + assert (m = m') by lia. subst m. rewrite Hs. lia.
      + rewrite <- shift_pos_Z in Hm. injection Hm as ->.
        rewrite shift_pos_size, Hs. lia.
    - destruct (e - e') as [| p | p] eqn:Hk; try lia.
      rewrite <- shift_pos_Z in Hm. injection Hm as Hm.
      subst m'. rewrite shift_pos_size in Hs. lia. }
  rewrite Hsz.
  assert (Hf : fexp prec emax (53 + e') = e').
  { unfold fexp, emin, prec, emax. lia. }
  rewrite Hf. unfold shl_align.
  destruct H as [[Hle Hm] | [Hlt Hm]].
  - destruct (e' - e) as [| p | p] eqn:Hk; try lia.
    + apply binary_round_aux_exact; try assumption. rewrite Hk. exact Hm.
    + apply binary_round_aux_exact; try assumption. rewrite Hk. exact Hm.
  - destruct (e' - e) as [| p | p] eqn:Hk; try lia.
    assert (Hp : e - e' = Zpos p) by lia. rewrite Hp in Hm.
    rewrite <- shift_pos_Z in Hm. injection Hm as Hm. cbv iota beta.
    change (Pos.iter xO m p) with (shift_pos p m). rewrite <- Hm.
    apply binary_round_aux_exact; try assumption; try lia.
    replace (e' - e') with 0 by lia. cbn. lia.
Qed.


(** A whole number from 1 to [2^53] is a 53-bit mantissa times a power of
    two. *)
Lemma whole_canonical (p : positive) :
  Zpos p <= 2 ^ 53 ->
  exists (m' : positive) (e' : Z),
    Pos.size m' = 53%positive /\ -52 <= e' <= 1 /\
    (Zpos p < 2 ^ 53 -> e' <= 0) /\
    ((e' <= 0 /\ Zpos m' = Zpos p * 2 ^ (- e')) \/
     (0 < e' /\ Zpos p = Zpos m' * 2 ^ e')).
Proof.
  intros Hp.
  pose proof (pos_lt_pow2_size p) as Hlt.
  pose proof (pow2_size_le_double p) as Hle.
  assert (Hsz : Zpos (Pos.size p) <= 54).
  { destruct (Z.le_gt_cases (Zpos (Pos.size p)) 54) as [H | H]; [exact H |].
    assert (2 ^ 55 <= 2 ^ Zpos (Pos.size p)) by (apply Z.pow_le_mono_r; lia).
    change (2 ^ 55) with (4 * 2 ^ 53) in *. lia. }
  destruct (Z.compare_spec (Zpos (Pos.size p)) 53) as [Heq | Hlt53 | Hgt].
  - exists p, 0.
    split; [exact (Pos2Z.inj _ 53 Heq) | split; [lia | split; [lia |]]].
    left. split; [lia |]. cbn. lia.
  - destruct (53 - Zpos (Pos.size p)) as [| k | k] eqn:Hk; try lia.
    exists (shift_pos k p), (- Zpos k). rewrite shift_pos_size.
    split; [lia | split; [lia | split; [lia |]]].
    left. split; [lia |]. rewrite shift_pos_Z. reflexivity.
  - assert (Hs54 : Zpos (Pos.size p) = 54) by lia.
    rewrite Hs54 in Hle. change (2 ^ 54) with (2 * 2 ^ 53) in Hle.
    assert (Hp' : Zpos p = 2 ^ 53) by lia.
    exists (2 ^ 52)%positive, 1.
    split; [reflexivity | split; [lia | split; [lia |]]].
    right. split; [lia |]. rewrite Hp'. reflexivity.
Qed.

Lemma number_of_canonical (p m' : positive) (e' : Z) :
  Pos.size m' = 53%positive -> -52 <= e' <= 1 ->
  (e' <= 0 /\ Zpos m' = Zpos p * 2 ^ (- e')) \/
  (0 < e' /\ Zpos p = Zpos m' * 2 ^ e') ->
  number_of (Zpos p) = S754_finite false m' e'.
Proof.
  intros Hs He H. unfold number_of, binary_normalize.
  apply binary_round_exact; [exact Hs | lia |].
  destruct H as [[Hle Hm] | [Hlt Hm]].
  - destruct (Z.eq_dec e' 0) as [-> | Hne].
    + left. split; [lia |]. cbn in Hm |- *. lia.
    + right. split; [lia |]. rewrite Hm. f_equal.
  - left. split; [lia |]. rewrite Hm. f_equal; f_equal; lia.
Qed.

Lemma shl_align_Z (m : positive) (e ez : Z) :
  ez <= e ->
  Zpos (fst (shl_align m e ez)) = Zpos m * 2 ^ (e - ez).
Proof.
  intros H. unfold shl_align.
  destruct (ez - e) as [| d | d] eqn:Hd; try lia; cbn [fst].
  - replace (e - ez) with 0 by lia. cbn. lia.
  - change (Pos.iter xO m d) with (shift_pos d m).
    rewrite shift_pos_Z. f_equal; f_equal; lia.
Qed.

(** Adding two whole numbers whose sum does not exceed [2^53] is exact. *)
Lemma number_add_pos (a b : positive) :
  Zpos a + Zpos b <= 2 ^ 53 ->
  number_add (number_of (Zpos a)) (number_of (Zpos b)) = number_of (Zpos a + Zpos b).
Proof.
  intros Hab.
  assert (Ha : Zpos a < 2 ^ 53) by lia.
  assert (Hb : Zpos b < 2 ^ 53) by lia.
  destruct (whole_canonical a ltac:(lia))
    as (ma & ea & Hsa & Hea & Hda & Hva).
  destruct (whole_canonical b ltac:(lia))
    as (mb & eb & Hsb & Heb & Hdb & Hvb).
  destruct (whole_canonical (a + b) ltac:(lia))
    as (mc & ec & Hsc & Hec & Hdc & Hvc).
  change (Zpos a + Zpos b) with (Zpos (a + b)).
  rewrite (number_of_canonical a ma ea Hsa Hea Hva).
  rewrite (number_of_canonical b mb eb Hsb Heb Hvb).
  rewrite (number_of_canonical (a + b) mc ec Hsc Hec Hvc).
  specialize (Hda Ha). specialize (Hdb Hb).
  destruct Hva as [[_ Hva] | [? _]]; [| lia].
  destruct Hvb as [[_ Hvb] | [? _]]; [| lia].
  unfold number_add, SFadd. cbn [cond_Zopp].
  set (ez := Z.min ea eb).
  assert (Hza : ez <= ea) by (unfold ez; lia).
  assert (Hzb : ez <= eb) by (unfold ez; lia).
  rewrite (shl_align_Z ma ea ez Hza), (shl_align_Z mb eb ez Hzb).
  assert (HM : Zpos ma * 2 ^ (ea - ez) + Zpos mb * 2 ^ (eb - ez)
               = Zpos (a + b) * 2 ^ (- ez)).
  { rewrite Hva, Hvb, Pos2Z.inj_add.
    rewrite <- !Z.mul_assoc, <- !Z.pow_add_r by lia.
    replace (- ea + (ea - ez)) with (- ez) by lia.
    replace (- eb + (eb - ez)) with (- ez) by lia. lia. }
  rewrite HM.
  assert (Hpos : 0 < 2 ^ (- ez)) by (apply Z.pow_pos_nonneg; lia).
  destruct (Zpos (a + b) * 2 ^ (- ez)) as [| M | M] eqn:HMp; try lia.
  unfold binary_normalize.
  apply binary_round_exact; [exact Hsc | lia |].
  destruct (Z.le_gt_cases ez ec) as [Hle | Hgt].
  - left. split; [exact Hle |].
    destruct Hvc as [[Hc0 Hvc] | [Hc1 Hvc]].
    + rewrite <- HMp, Hvc, <- Z.mul_assoc, <- Z.pow_add_r by lia.
      f_equal; f_equal; lia.
    + rewrite <- HMp, Hvc, <- Z.mul_assoc, <- Z.pow_add_r by lia.
      f_equal; f_equal; lia.
  - right. split; [lia |].
    destruct Hvc as [[Hc0 Hvc] | [Hc1 Hvc]]; [| lia].
    rewrite Hvc, <- HMp, <- Z.mul_assoc, <- Z.pow_add_r by lia.
    f_equal; f_equal; lia.
Qed.


(** Adding whole numbers is exact as long as the sum does not exceed
    [2^53]. *)
Lemma number_add_exact (a b : Z) :
  0 <= a -> 0 <= b -> a + b <= 2 ^ 53 ->
  number_add (number_of a) (number_of b) = number_of (a + b).
Proof.
  intros Ha Hb Hab.
  destruct a as [| a | a]; [| | lia]; destruct b as [| b | b]; try lia.
  - reflexivity.
  - destruct (whole_canonical b ltac:(lia)) as (m & e & Hs & He & _ & Hv).
    rewrite Z.add_0_l, (number_of_canonical b m e Hs He Hv). reflexivity.
  - destruct (whole_canonical a ltac:(lia)) as (m & e & Hs & He & _ & Hv).
    rewrite Z.add_0_r. rewrite (number_of_canonical a m e Hs He Hv).
    reflexivity.
  - now apply number_add_pos.
Qed.

(** The number of a whole count up to [2^53] has that count as its
    value. *)
Lemma number_of_value (z : Z) :
  0 <= z <= 2 ^ 53 -> (SF2Q (number_of z) == inject_Z z)%Q.
Proof.
  intros [H0 Hz]. destruct z as [| p | p]; [reflexivity | | lia].
  destruct (whole_canonical p Hz) as (m & e & Hs & He & _ & Hv).
  rewrite (number_of_canonical p m e Hs He Hv).
  unfold SF2Q, Qeq, inject_Z; cbn [Qnum Qden].
  destruct Hv as [[Hle Hv] | [Hlt Hv]].
  - destruct e as [| k | k]; [| lia |].
    + cbn in Hv. rewrite Hv. cbn. lia.
    + change (- Z.neg k) with (Z.pos k) in Hv. cbn [Qnum Qden].
      rewrite pos_pow2_Z. lia.
  - destruct e as [| k | k]; try lia. cbn [Qnum Qden]. rewrite Hv. lia.
Qed.

End Binary64.

(** ** The punch ledger and the next action *)

Section Ledger.

Lemma sorts_after_le (k : Z) (id : string) (k' : Z) (id' : string) :
  (sorts_after k id k' id' = true -> k <= k') /\
  (sorts_after k id k' id' = false -> k' <= k).
Proof.
  unfold sorts_after.
  destruct (Z.ltb_spec k k'), (Z.eqb_spec k k'); cbn; split;
    try discriminate; lia.
Qed.

Lemma insert_desc_head (p : PunchLog) (l : list PunchLog) :
  head (insert_desc p l) =
  match head l with
  | None => Some p
  | Some q =>
      if sorts_after (pl_timestamp p) (pl_id p) (pl_timestamp q) (pl_id q)
      then Some q else Some p
  end.
Proof.
  destruct l as [| q l']; simpl; [reflexivity |].
  destruct (sorts_after _ _ _ _); reflexivity.
Qed.

Lemma orderBy_head_None (l : list PunchLog) :
  head (orderBy_timestamp_desc l) = None -> l = [].
Proof.
  destruct l as [| a l]; [reflexivity |]. simpl.
  rewrite insert_desc_head.
  destruct (head (orderBy_timestamp_desc l)) as [h |]; [| discriminate].
  destruct (sorts_after _ _ _ _); discriminate.
Qed.

(** The first row of the ordered result is a row of the input and no row
    is later. *)
Lemma orderBy_head_latest (l : list PunchLog) (h : PunchLog) :
  head (orderBy_timestamp_desc l) = Some h ->
  h ∈ l /\ forall q, q ∈ l -> pl_timestamp q <= pl_timestamp h.
Proof.
  revert h. induction l as [| a l IH]; intros h; simpl; [discriminate |].
  rewrite insert_desc_head.
  destruct (head (orderBy_timestamp_desc l)) as [h' |] eqn:Hh.
  - destruct (IH h' eq_refl) as [Hin Hmax]. clear IH.
    pose proof (sorts_after_le (pl_timestamp a) (pl_id a)
                  (pl_timestamp h') (pl_id h')) as [Hlt Hge].
    destruct (sorts_after _ _ _ _);
      [specialize (Hlt eq_refl); clear Hge
      | specialize (Hge eq_refl); clear Hlt];
      intros Heq; injection Heq as Heq; subst h.
    + split; [now apply list_elem_of_further |].
      intros q Hq. apply elem_of_cons in Hq as [Hq | Hq].
      * subst q. lia.
      * now apply Hmax.
    + split; [apply list_elem_of_here |].
      intros q Hq. apply elem_of_cons in Hq as [Hq | Hq].
      * subst q. lia.
      * specialize (Hmax q Hq). lia.
  - apply orderBy_head_None in Hh. subst l. clear IH.
    intros Heq; injection Heq as Heq; subst h.
    split; [apply list_elem_of_here |].
    intros q Hq. apply elem_of_cons in Hq as [Hq | Hq].
    + subst q. lia.
    + inversion Hq.
Qed.

(** A row that every other row is strictly earlier than is the one
    returned. *)
Lemma orderBy_head_strict_latest (l : list PunchLog) (p : PunchLog) :
  p ∈ l ->
  (forall q, q ∈ l -> q = p \/ pl_timestamp q < pl_timestamp p) ->
  head (orderBy_timestamp_desc l) = Some p.
Proof.
  intros Hin Hmax.
  destruct (head (orderBy_timestamp_desc l)) as [h |] eqn:Hh.
  - destruct (orderBy_head_latest l h Hh) as [Hh_in Hh_max].
    destruct (Hmax h Hh_in) as [-> | Hlt]; [reflexivity |].
    specialize (Hh_max p Hin). lia.
  - apply orderBy_head_None in Hh. subst l. inversion Hin.
Qed.

Lemma getLastPunchLog_head (st : Store) (driverId : string) :
  reachable st = true ->
  getLastPunchLog st driverId =
  head (orderBy_timestamp_desc
          (filter (fun p => of_driver driverId p = true) (punchLogs st))).
Proof.
  intros Hr. unfold getLastPunchLog. rewrite Hr.
  destruct (orderBy_timestamp_desc _) as [| p l]; reflexivity.
Qed.

Lemma nextPunchType_in (lastPunch : option PunchLog) :
  PunchInOut.nextPunchType lastPunch = punch_in <->
  lastPunch = None \/ exists p, lastPunch = Some p /\ pl_type p = punch_out.
Proof.
  unfold PunchInOut.nextPunchType.
  destruct lastPunch as [p |]; [| tauto].
  destruct (pl_type p) eqn:Ht; simpl; split.
  - discriminate.
  - intros [H | (q & [= <-] & H)]; congruence.
  - intros _. right. eauto.
  - reflexivity.
Qed.

Lemma nextPunchType_out (lastPunch : option PunchLog) :
  PunchInOut.nextPunchType lastPunch = punch_out <->
  exists p, lastPunch = Some p /\ pl_type p = punch_in.
Proof.
  unfold PunchInOut.nextPunchType.
  destruct lastPunch as [p |]; simpl.
  - destruct (pl_type p) eqn:Ht; simpl; split.
    + eauto.
    + reflexivity.
    + discriminate.
    + intros (q & [= <-] & H). congruence.
  - split; [discriminate | intros (q & H & _); discriminate].
Qed.

End Ledger.

(** ** The punch-state machine *)

(** C1.  The next punch action is ['in'] when there is no latest entry or
    the latest entry has direction ['out'], and ['out'] when the latest
    entry has direction ['in'].  Only the latest entry is inspected: on a
    ledger of any length, a driver without rows is offered ['in'], and a
    driver whose rows are all strictly earlier than one row [p] is offered
    the opposite of the direction of [p], whatever the older rows are. *)
Theorem next_punch_action_from_latest_entry
  (st : Store) (driverId : string) (lastPunch : option PunchLog) :
  (PunchInOut.nextPunchType lastPunch = punch_in <->
   lastPunch = None \/
   exists p, lastPunch = Some p /\ pl_type p = punch_out) /\
  (PunchInOut.nextPunchType lastPunch = punch_out <->
   exists p, lastPunch = Some p /\ pl_type p = punch_in) /\
  (reachable st = true ->
   let rows := filter (fun p => of_driver driverId p = true) (punchLogs st) in
   (rows = [] ->
    PunchInOut.nextPunchType (getLastPunchLog st driverId) = punch_in) /\
   (forall p, p ∈ rows ->
      (forall q, q ∈ rows -> q = p \/ pl_timestamp q < pl_timestamp p) ->
      getLastPunchLog st driverId = Some p /\
      PunchInOut.nextPunchType (getLastPunchLog st driverId) =
      match pl_type p with
      | punch_out => punch_in
      | punch_in => punch_out
      end)).
Proof.
  split; [apply nextPunchType_in |].
  split; [apply nextPunchType_out |].
  intros Hr rows. rewrite (getLastPunchLog_head st driverId Hr). fold rows.
  split.
  - intros ->. reflexivity.
  - intros p Hin Hmax.
    rewrite (orderBy_head_strict_latest rows p Hin Hmax).
    split; [reflexivity |].
    unfold PunchInOut.nextPunchType. destruct (pl_type p); reflexivity.
Qed.

(** C8.  After a successful punch the return-form step is shown exactly
    when the punch has direction ['in'], and then for that punch log; a
    punch-out leaves no session and clears the current punch log. *)
Theorem return_form_session_iff_punch_in
  (s : DriverDashboard.State) (punchLog : PunchLog) :
  let s' := DriverDashboard.handlePunchSuccess s punchLog in
  ((exists p, DriverDashboard.returnFormSession s' = Some p) <->
   pl_type punchLog = punch_in) /\
  (pl_type punchLog = punch_in ->
   DriverDashboard.returnFormSession s' = Some punchLog /\
   DriverDashboard.punchPanelShown s' = false) /\
  (pl_type punchLog = punch_out ->
   DriverDashboard.returnFormSession s' = None /\
   DriverDashboard.currentPunchLog s' = None /\
   DriverDashboard.showReturnForm s' = false) /\
  (forall r : PunchInOut.State * Store * PunchInOut.Effects,
     PunchInOut.onPunchSuccess (snd r) = Some punchLog ->
     DriverDashboard.after_punch s r = s').
Proof.
  unfold DriverDashboard.handlePunchSuccess, DriverDashboard.returnFormSession,
    DriverDashboard.punchPanelShown, DriverDashboard.after_punch.
  destruct (pl_type punchLog) eqn:Ht; simpl; repeat split;
    try discriminate; eauto.
  all: try (intros [p H]; discriminate).
  all: intros r Hr; rewrite Hr; unfold DriverDashboard.handlePunchSuccess;
    now rewrite Ht.
Qed.

(** ** Authorisation of a punch *)

Section Authorisation.

Lemma truthy_string (p : string) :
  truthy (Some (VStr p)) = true <-> p <> "".
Proof.
  cbn. destruct (String.eqb_spec p ""); split; intros; simpl in *;
    congruence.
Qed.

(** The guard of [handlePinPunch] passes exactly for a stored non-empty
    string PIN equal to the entered one. *)
Lemma pin_guard_passes (s : PunchInOut.State) :
  negb (truthy (PunchInOut.driver_pin s))
  || negb (strict_eq_string (PunchInOut.pin s) (PunchInOut.driver_pin s))
  = false <->
  exists p, PunchInOut.driver_pin s = Some (VStr p) /\ p <> "" /\
            PunchInOut.pin s = p.
Proof.
  rewrite orb_false_iff, !negb_false_iff. split.
  - intros [Ht He]. destruct (PunchInOut.driver_pin s) as [[| | | p | |] |];
      try discriminate.
    exists p. split; [reflexivity |]. split; [now apply truthy_string |].
    now apply String.eqb_eq.
  - intros (p & -> & Hne & Hp). split; [now apply truthy_string |].
    now apply String.eqb_eq.
Qed.

(** A punch whose driver record holds a [driverId] and a [name] appends
    one row on a reachable store. *)
Lemma handlePunch_appends (s : PunchInOut.State) (st : Store) (now : Z)
  (type : PunchType) (m : PunchMethod) (d : DocumentData) :
  PunchInOut.driver s = Some d -> reachable st = true ->
  is_Some (d !! "driverId") -> is_Some (d !! "name") ->
  exists row,
    punchLogs (snd (fst (PunchInOut.handlePunch s st now type m)))
    = punchLogs st ++ [row] /\
    pl_method row = m /\ pl_type row = type /\ pl_timestamp row = now /\
    PunchInOut.onPunchSuccess (snd (PunchInOut.handlePunch s st now type m))
    = Some row /\
    PunchInOut.alert (snd (PunchInOut.handlePunch s st now type m)) = None.
Proof.
  intros Hd Hr [i Hi] [n Hn].
  unfold PunchInOut.handlePunch, createPunchLog, punchLog_with_id.
  rewrite Hd, Hr. cbn. rewrite Hi, Hn. cbn. eexists. repeat split.
Qed.

(** [handlePunch] hands a row to [onPunchSuccess] exactly when the store
    is reachable and the driver record holds a [driverId] and a [name];
    the row is then the one row the ledger grew by, and otherwise the
    store is as it was. *)
Lemma handlePunch_writes (s : PunchInOut.State) (st : Store) (now : Z)
  (type : PunchType) (m : PunchMethod) :
  let r := PunchInOut.handlePunch s st now type m in
  (is_Some (PunchInOut.onPunchSuccess (snd r)) <->
   reachable st = true /\
   exists d, PunchInOut.driver s = Some d /\
             is_Some (d !! "driverId") /\ is_Some (d !! "name")) /\
  (forall row, PunchInOut.onPunchSuccess (snd r) = Some row ->
     punchLogs (snd (fst r)) = punchLogs st ++ [row] /\
     pl_method row = m /\ pl_type row = type /\ pl_timestamp row = now) /\
  (PunchInOut.onPunchSuccess (snd r) = None -> snd (fst r) = st).
Proof.
  unfold PunchInOut.handlePunch, createPunchLog, punchLog_with_id.
  destruct (PunchInOut.driver s) as [d |] eqn:Hd; cbn.
  2:{ split; [| split; [discriminate | reflexivity]].
      split; [intros [? H]; discriminate | intros (_ & d & H & _)].
      discriminate. }
  destruct (reachable st) eqn:Hr; cbn.
  2:{ split; [| split; [discriminate | reflexivity]].
      split; [intros [? H]; discriminate | intros (H & _); discriminate]. }
  destruct (d !! "driverId") as [i |] eqn:Hi; cbn.
  2:{ split; [| split; [discriminate | reflexivity]].
      split; [intros [? H]; discriminate |].
      intros (_ & d' & [= <-] & [? H] & _). congruence. }
  destruct (d !! "name") as [n |] eqn:Hn; cbn.
  2:{ split; [| split; [discriminate | reflexivity]].
      split; [intros [? H]; discriminate |].
      intros (_ & d' & [= <-] & _ & [? H]). congruence. }
  split; [| split].
  - split; [intros _ | eauto].
    split; [reflexivity |]. exists d. rewrite Hi, Hn. eauto.
  - intros row [= <-]. repeat split.
  - discriminate.
Qed.

Lemma handlePunch_no_alert (s : PunchInOut.State) (st : Store) (now : Z)
  (type : PunchType) (m : PunchMethod) :
  PunchInOut.alert (snd (PunchInOut.handlePunch s st now type m)) = None.
Proof.
  unfold PunchInOut.handlePunch, createPunchLog.
  destruct (PunchInOut.driver s); [| reflexivity].
  destruct (reachable st); [| reflexivity].
  destruct (punchLog_with_id _ _); reflexivity.
Qed.

End Authorisation.



(** C10.  When the stored PIN is absent or empty, every PIN attempt is
    refused whatever PIN is entered, the empty one included: the alert is
    raised and panel and store are unchanged, so no row is created. *)
Theorem pin_absent_or_empty_always_refused
  (s : PunchInOut.State) (st : Store) (now : Z) (entered : string) :
  PunchInOut.driver_pin s = None \/
  PunchInOut.driver_pin s = Some (VStr "") ->
  PunchInOut.handlePinPunch (PunchInOut.setPin s entered) st now =
  (PunchInOut.setPin s entered, st,
   {| PunchInOut.onPunchSuccess := None;
      PunchInOut.alert := Some "Invalid PIN" |}).
Proof.
  intros H. unfold PunchInOut.handlePinPunch.
  assert (Hp : PunchInOut.driver_pin (PunchInOut.setPin s entered)
               = PunchInOut.driver_pin s) by reflexivity.
  rewrite Hp. destruct H as [-> | ->]; reflexivity.
Qed.

Lemma pin_absent_or_empty_always_refused_witness :
  PunchInOut.handlePinPunch
    (PunchInOut.setPin
       (Samples.panel Samples.driver_without_credentials "9" method_pin) "")
    Samples.sample_store 0 =
  (PunchInOut.setPin
     (Samples.panel Samples.driver_without_credentials "9" method_pin) "",
   Samples.sample_store,
   {| PunchInOut.onPunchSuccess := None;
      PunchInOut.alert := Some "Invalid PIN" |}).
Proof.
  apply (pin_absent_or_empty_always_refused
           (Samples.panel Samples.driver_without_credentials "9" method_pin)
           Samples.sample_store 0 "").
  left. reflexivity.
Defined.

(** ** The face-match decision *)

(** C2.  With a stored descriptor, outside enrolment and on a detected
    face, [detectFace] reports to [onFaceVerified] the comparison of the
    Euclidean distance with the threshold, and for every binary64 distance
    this comparison holds exactly when the distance is strictly below
    4/10: a distance of zero matches and a distance of 4/10 or more does
    not. *)
Theorem face_match_iff_distance_below_threshold
  (api : FaceRecognition.FaceApi) (s : FaceRecognition.State)
  (stored : value) (live arr : list number) (distance : number) :
  FaceRecognition.isLoaded s = true ->
  truthy (Some stored) = true ->
  FaceRecognition.Float32Array api stored = Resolved arr ->
  FaceRecognition.euclideanDistance api live arr = Resolved distance ->
  valid_binary prec emax distance = true ->
  let calls :=
    snd (FaceRecognition.detectFace api
           {| FaceRecognition.driverFaceDescriptor := Some stored;
              FaceRecognition.isEnrolling := false |}
           s true (Resolved (Some live))) in
  (FaceRecognition.onFaceVerified calls = Some true <->
   lt_real distance (4 # 10)) /\
  (FaceRecognition.onFaceVerified calls = Some false <->
   ~ lt_real distance (4 # 10)) /\
  (forall sign, distance = S754_zero sign ->
     FaceRecognition.onFaceVerified calls = Some true) /\
  (le_real (4 # 10) distance ->
   FaceRecognition.onFaceVerified calls = Some false).
Proof.
  intros Hl Ht Hf He Hv calls.
  assert (Hc : FaceRecognition.onFaceVerified calls
               = Some (FaceRecognition.isMatch distance)).
  { subst calls. unfold FaceRecognition.detectFace.
    rewrite Hl. cbn [negb orb FaceRecognition.isEnrolling
                     FaceRecognition.driverFaceDescriptor].
    rewrite Ht, Hf, He. reflexivity. }
  pose proof (isMatch_iff_lt_real distance Hv) as Hiff.
  rewrite Hc.
  destruct (FaceRecognition.isMatch distance) eqn:Hm.
  - assert (Hlt : lt_real distance (4 # 10)) by now apply Hiff.
    split; [tauto |]. split; [split; [discriminate | tauto] |].
    split; [reflexivity |].
    intros H. now apply le_real_not_lt_real in H.
  - assert (Hnlt : ~ lt_real distance (4 # 10)).
    { intros H. apply Hiff in H. discriminate. }
    split; [split; [discriminate | tauto] |]. split; [tauto |].
    split; [| reflexivity].
    intros sign ->. destruct sign; discriminate.
Qed.

Lemma face_match_iff_distance_below_threshold_witness :
  FaceRecognition.onFaceVerified
    (snd (FaceRecognition.detectFace (Samples.constant_api Samples.quarter)
            {| FaceRecognition.driverFaceDescriptor := Some (VArr []);
               FaceRecognition.isEnrolling := false |}
            {| FaceRecognition.isLoaded := true;
               FaceRecognition.isDetecting := false;
               FaceRecognition.status := FaceRecognition.idle |}
            true (Resolved (Some []))))
  = Some true <-> lt_real Samples.quarter (4 # 10).
Proof.
  apply (face_match_iff_distance_below_threshold
           (Samples.constant_api Samples.quarter)
           {| FaceRecognition.isLoaded := true;
              FaceRecognition.isDetecting := false;
              FaceRecognition.status := FaceRecognition.idle |}
           (VArr []) [] [] Samples.quarter);
    reflexivity.
Defined.

(** C9.  When the driver record has no stored face descriptor (the field
    is absent, or holds a falsy value such as [null]), a face attempt
    never reports a match and never punches: whatever the capture yields,
    panel and store are unchanged and [onPunchSuccess] is not called. *)
Theorem face_punch_needs_stored_descriptor
  (api : FaceRecognition.FaceApi) (s : PunchInOut.State) (st : Store)
  (now : Z) (fs : FaceRecognition.State) (refs : bool)
  (detection : outcome (option (list number))) :
  truthy (PunchInOut.driver_faceDescriptor s) = false ->
  FaceRecognition.onFaceVerified
    (snd (FaceRecognition.detectFace api
            {| FaceRecognition.driverFaceDescriptor :=
                 PunchInOut.driver_faceDescriptor s;
               FaceRecognition.isEnrolling := false |}
            fs refs detection)) <> Some true /\
  PunchInOut.verifyFace api s st now fs refs detection
  = (s, st, PunchInOut.no_effects).
Proof.
  intros Ht.
  assert (Hcalls :
    forall v, FaceRecognition.onFaceVerified
      (snd (FaceRecognition.detectFace api
              {| FaceRecognition.driverFaceDescriptor :=
                   PunchInOut.driver_faceDescriptor s;
                 FaceRecognition.isEnrolling := false |}
              fs refs detection)) = Some v -> v = false).
  { intros v. unfold FaceRecognition.detectFace.
    destruct (negb refs || negb (FaceRecognition.isLoaded fs));
      [discriminate |].
    destruct detection as [[live |] |].
    - cbn [FaceRecognition.isEnrolling FaceRecognition.driverFaceDescriptor].
      destruct (PunchInOut.driver_faceDescriptor s) as [stored |];
        [rewrite Ht |]; discriminate.
    - cbn. congruence.
    - cbn. congruence. }
  split.
  - intros H. apply Hcalls in H. discriminate.
  - unfold PunchInOut.verifyFace.
    destruct (PunchInOut.driver s) as [d |]; [| reflexivity].
    destruct (PunchInOut.method s); [| reflexivity].
    destruct (FaceRecognition.onFaceVerified _) as [v |] eqn:Hv;
      [| reflexivity].
    specialize (Hcalls v eq_refl). subst v. reflexivity.
Qed.

Lemma face_punch_needs_stored_descriptor_witness :
  PunchInOut.verifyFace (Samples.constant_api (S754_zero false))
    (Samples.panel Samples.driver_without_credentials "" method_face)
    Samples.sample_store 0
    {| FaceRecognition.isLoaded := true;
       FaceRecognition.isDetecting := false;
       FaceRecognition.status := FaceRecognition.idle |}
    true (Resolved (Some []))
  = (Samples.panel Samples.driver_without_credentials "" method_face,
     Samples.sample_store, PunchInOut.no_effects).
Proof.
  apply (face_punch_needs_stored_descriptor
           (Samples.constant_api (S754_zero false))
           (Samples.panel Samples.driver_without_credentials "" method_face)
           Samples.sample_store 0).
  reflexivity.
Defined.

(** ** The driver directory lookup *)

Section Directory.

Lemma filter_first_split {A : Type} (P : A -> bool) (l : list A)
  (d : A) (rest : list A) :
  filter (fun x => P x = true) l = d :: rest ->
  exists pre post,
    l = pre ++ d :: post /\ P d = true /\
    forall x, x ∈ pre -> P x = false.
Proof.
  induction l as [| a l IH]; [discriminate |].
  destruct (P a) eqn:Ha.
  - rewrite filter_cons_True by exact Ha. intros [= -> _].
    exists [], l. split; [reflexivity |]. split; [exact Ha |].
    intros x Hx. inversion Hx.
  - rewrite filter_cons_False by congruence. intros H.
    destruct (IH H) as (pre & post & -> & Hd & Hpre).
    exists (a :: pre), post. split; [reflexivity |]. split; [exact Hd |].
    intros x [-> | Hx]%elem_of_cons; auto.
Qed.

Lemma filter_none {A : Type} (P : A -> bool) (l : list A) :
  filter (fun x => P x = true) l = [] <-> forall x, x ∈ l -> P x = false.
Proof.
  induction l as [| a l IH].
  - split; [intros _ x Hx; inversion Hx | reflexivity].
  - destruct (P a) eqn:Ha.
    + rewrite filter_cons_True by exact Ha. split; [discriminate |].
      intros H. specialize (H a (list_elem_of_here a l)). congruence.
    + rewrite filter_cons_False by congruence. rewrite IH. split.
      * intros H x [-> | Hx]%elem_of_cons; auto.
      * intros H x Hx. apply H. now apply list_elem_of_further.
Qed.

(** The record handed back holds the stored fields and, unless a stored
    field is itself named [id], the document id. *)
Lemma spread_with_id_lookup (d : Doc) (f : string) :
  spread_with_id d !! f =
  match snd d !! f with
  | Some v => Some v
  | None => if decide (f = "id") then Some (VStr (fst d)) else None
  end.
Proof.
  unfold spread_with_id. rewrite lookup_union.
  destruct (snd d !! f) as [v |] eqn:Hf.
  - destruct ({[ "id" := VStr (fst d) ]} !! f); reflexivity.
  - rewrite (left_id_L None _). rewrite lookup_singleton.
    destruct (decide ("id" = f)); destruct (decide (f = "id"));
      congruence.
Qed.

End Directory.

(** C3, as amended.  The lookup reads the [users] collection only: it
    returns the first user document whose [driverId] field is the given
    identifier and whose [role] field is ['driver'], as a record of that
    document's stored fields; the [id] of the record is the stored [id]
    field when the document has one, and the document id otherwise.  It
    returns null when there is no such user document or the store cannot
    be reached.  The [drivers] collection has no influence on the
    result. *)
Theorem driver_lookup_reads_users (st : Store) (driverId : string) :
  (forall r,
     getDriverByDriverId st driverId = Some r <->
     reachable st = true /\
     exists pre d post,
       users st = pre ++ d :: post /\ driver_query driverId d = true /\
       (forall d', d' ∈ pre -> driver_query driverId d' = false) /\
       r = spread_with_id d /\
       (forall f, r !! f =
                  match snd d !! f with
                  | Some v => Some v
                  | None =>
                      if decide (f = "id") then Some (VStr (fst d)) else None
                  end) /\
       r !! "id" = Some (match snd d !! "id" with
                         | Some v => v
                         | None => VStr (fst d)
                         end)) /\
  (getDriverByDriverId st driverId = None <->
   reachable st = false \/
   forall d, d ∈ users st -> driver_query driverId d = false) /\
  (forall others,
     getDriverByDriverId
       {| reachable := reachable st; autoId := autoId st;
          issued := issued st; users := users st; drivers := others;
          punchLogs := punchLogs st; returnForms := returnForms st |}
       driverId
     = getDriverByDriverId st driverId).
Proof.
  unfold getDriverByDriverId. split; [| split].
  - intros r. destruct (reachable st).
    + destruct (filter _ (users st)) as [| d rest] eqn:Hf.
      * split; [discriminate |].
        intros (_ & pre & d & post & Hu & Hd & _).
        apply filter_none with (x := d) in Hf; [congruence |].
        rewrite Hu. set_solver.
      * apply filter_first_split in Hf as Hs.
        destruct Hs as (pre & post & Hu & Hd & Hpre). split.
        -- intros [= <-]. split; [reflexivity |].
           exists pre, d, post.
           split; [exact Hu |]. split; [exact Hd |]. split; [exact Hpre |].
           split; [reflexivity |].
           split; [apply spread_with_id_lookup |].
           rewrite spread_with_id_lookup.
           destruct (snd d !! "id"); reflexivity.
        -- intros (_ & pre' & d' & post' & Hu' & Hd' & Hpre' & -> & _).
           rewrite Hu' in Hf. rewrite filter_app in Hf.
           rewrite (proj2 (filter_none _ pre') Hpre') in Hf.
           rewrite filter_cons_True in Hf by exact Hd'.
           now injection Hf as -> _.
    + split; [discriminate | intros [H _]; discriminate].
  - destruct (reachable st).
    + destruct (filter _ (users st)) as [| d rest] eqn:Hf.
      * split; [intros _; right; now apply filter_none | reflexivity].
      * split; [discriminate |]. intros [H | H]; [discriminate |].
        apply filter_none in H. congruence.
    + split; [now left | reflexivity].
  - reflexivity.
Qed.

(** C3, as stated, fails: for a driver present both as a signed-up user
    and in the driver directory, where the name and the PIN are stored,
    the lookup returns a record without name, PIN and face descriptor. *)
Lemma lookup_result_lacks_profile :
  ~ (forall (st : Store) (driverId : string),
       (exists u, u ∈ users st /\ driver_query driverId u = true) ->
       (exists d, d ∈ drivers st /\ where_eq "driverId" driverId d = true /\
                  is_Some (snd d !! "name") /\ is_Some (snd d !! "pin")) ->
       exists r, getDriverByDriverId st driverId = Some r /\
                 is_Some (r !! "name") /\ is_Some (r !! "pin")).
Proof.
  intros H. specialize (H Samples.sample_store "D1").
  destruct H as (r & Hr & [n Hn] & _).
  - exists Samples.signup_user. split; [left | reflexivity].
  - exists Samples.directory_driver.
    split; [left |]. split; [reflexivity |].
    split; eexists; reflexivity.
  - assert (Hname : default ∅ (getDriverByDriverId Samples.sample_store "D1")
                    !! "name" = None) by (vm_compute; reflexivity).
    rewrite Hr in Hname. change (r !! "name" = None) in Hname. congruence.
Qed.

(** ** Return-form validation and submission *)

Section Validation.

Import ReturnFormView.

Lemma condition_enum_Some (s : string) :
  (exists c, condition_enum s = Some c) <->
  In s ["good"; "damaged"; "missing"].
Proof.
  unfold condition_enum. simpl.
  destruct (String.eqb_spec s "good") as [-> | H1]; [split; eauto |].
  destruct (String.eqb_spec s "damaged") as [-> | H2]; [split; eauto |].
  destruct (String.eqb_spec s "missing") as [-> | H3]; [split; eauto 6 |].
  split; [intros [c H]; discriminate |].
  intros [H | [H | [H | []]]]; congruence.
Qed.

Lemma itemName_issues_nil (s : string) : itemName_issues s = [] <-> s <> "".
Proof.
  unfold itemName_issues. destruct s; simpl; split; congruence.
Qed.

Lemma quantity_issues_nil (q : option Z) :
  quantity_issues q = [] <-> exists n, q = Some n /\ 1 <= n.
Proof.
  unfold quantity_issues. destruct q as [n |].
  - destruct (Z.leb_spec 1 n); split.
    + eauto.
    + reflexivity.
    + discriminate.
    + intros (n' & [= <-] & H'). lia.
  - split; [discriminate | intros (n & H & _); discriminate].
Qed.

Lemma condition_issues_nil (s : string) :
  condition_issues s = [] <-> In s ["good"; "damaged"; "missing"].
Proof.
  rewrite <- condition_enum_Some. unfold condition_issues.
  destruct (condition_enum s) as [c |]; split; eauto; try discriminate.
  intros [c H]. discriminate.
Qed.

(** An item passes [returnItemSchema] exactly when it is acceptable, and
    the parsed item then carries the entered values. *)
Lemma returnItemSchema_ok (r : RawItem) :
  (exists item, returnItemSchema r = ParseOk item) <-> acceptable_item r.
Proof.
  unfold acceptable_item. rewrite <- itemName_issues_nil.
  rewrite <- quantity_issues_nil, <- condition_issues_nil.
  unfold returnItemSchema, condition_issues.
  destruct (itemName_issues (raw_itemName r)) as [| i1 l1];
    destruct (quantity_issues (raw_quantity r)) as [| i2 l2] eqn:Hq;
    destruct (condition_enum (raw_condition r)) as [c |];
    cbn [app]; (split; [intros [item H] | intros (H1 & H2 & H3)]);
    try discriminate.
  - repeat split.
  - apply quantity_issues_nil in Hq as (n & -> & _). eauto.
Qed.

Lemma returnItemSchema_entered (r : RawItem) (item : ReturnItem) :
  returnItemSchema r = ParseOk item ->
  itemName item = raw_itemName r /\
  Some (quantity item) = raw_quantity r /\
  condition_enum (raw_condition r) = Some (condition item) /\
  notes item = raw_notes r.
Proof.
  unfold returnItemSchema.
  destruct (_ ++ _) as [| i l]; [| discriminate].
  destruct (raw_quantity r) as [q |]; [| discriminate].
  destruct (condition_enum (raw_condition r)) as [c |]; [| discriminate].
  intros [= <-]. repeat split.
Qed.

Lemma returnItemSchema_error (r : RawItem) (errs : list Issue) :
  returnItemSchema r = ParseError errs -> errs <> [].
Proof.
  unfold returnItemSchema, condition_issues, quantity_issues.
  destruct (itemName_issues (raw_itemName r)) as [| i1 l1];
    destruct (raw_quantity r) as [q |];
    try destruct (1 <=? q);
    destruct (condition_enum (raw_condition r)) as [c |];
    cbn [app]; intros [= <-]; discriminate.
Qed.

(** The element-wise pass reports no issue exactly when every item is
    acceptable; the parsed items are then the entered ones, in order. *)
Lemma parse_items_ok (l : list RawItem) :
  snd (parse_items l) = [] <-> Forall acceptable_item l.
Proof.
  induction l as [| r l IH]; simpl.
  - split; [constructor | reflexivity].
  - destruct (parse_items l) as [parsed issues]. simpl in IH.
    destruct (returnItemSchema r) as [item | errs] eqn:Hr; simpl.
    + rewrite IH. split.
      * intros H. constructor; [| exact H].
        apply returnItemSchema_ok. eauto.
      * intros H. now inversion H.
    + apply returnItemSchema_error in Hr as Hne. split.
      * intros H. apply app_eq_nil in H as [H _]. contradiction.
      * intros H. inversion H as [| ? ? Hacc _]; subst.
        apply returnItemSchema_ok in Hacc as [item Hitem]. congruence.
Qed.

Lemma parse_items_entered (l : list RawItem) :
  snd (parse_items l) = [] ->
  map (fun item => Some (quantity item)) (fst (parse_items l))
  = map raw_quantity l /\
  map itemName (fst (parse_items l)) = map raw_itemName l.
Proof.
  induction l as [| r l IH]; simpl; [intros _; split; reflexivity |].
  destruct (parse_items l) as [parsed issues]. simpl in IH.
  destruct (returnItemSchema r) as [item | errs] eqn:Hr; simpl.
  - intros H. destruct (IH H) as [IH1 IH2].
    apply returnItemSchema_entered in Hr as (Hn & Hq & _).
    split; simpl; congruence.
  - apply returnItemSchema_error in Hr. intros H.
    apply app_eq_nil in H as [H _]. contradiction.
Qed.

(** What [returnFormSchema] accepts. *)
Lemma returnFormSchema_ok (raw : RawFormData) (data : FormData) :
  returnFormSchema raw = ParseOk data <->
  raw_items raw <> [] /\ snd (parse_items (raw_items raw)) = [] /\
  data = {| items := fst (parse_items (raw_items raw)) |}.
Proof.
  unfold returnFormSchema.
  destruct (parse_items (raw_items raw)) as [parsed issues]; simpl.
  destruct (raw_items raw) as [| r l]; simpl.
  - split; [discriminate | intros [H _]; congruence].
  - destruct issues as [| i issues]; split.
    + intros [= <-]. repeat split. discriminate.
    + intros (_ & _ & ->). reflexivity.
    + discriminate.
    + intros (_ & H & _). discriminate.
Qed.

Lemma returnFormSchema_total (raw : RawFormData) :
  (exists data, returnFormSchema raw = ParseOk data) \/
  (exists issues, returnFormSchema raw = ParseError issues).
Proof. destruct (returnFormSchema raw); eauto. Qed.

Lemma returnItemSchema_quantity (r : RawItem) (item : ReturnItem) :
  returnItemSchema r = ParseOk item -> 1 <= quantity item.
Proof.
  intros H. pose proof (returnItemSchema_entered r item H) as (_ & Hq & _).
  assert (Hacc : acceptable_item r) by (apply returnItemSchema_ok; eauto).
  destruct Hacc as (_ & (q & Hq' & Hle) & _). congruence.
Qed.

Lemma parse_items_quantities (l : list RawItem) :
  snd (parse_items l) = [] ->
  Forall (fun item => 1 <= quantity item) (fst (parse_items l)).
Proof.
  induction l as [| r l IH]; simpl; [constructor |].
  destruct (parse_items l) as [parsed issues]. simpl in IH.
  destruct (returnItemSchema r) as [item | errs] eqn:Hr; simpl.
  - intros H. constructor; [| exact (IH H)].
    now apply (returnItemSchema_quantity r).
  - apply returnItemSchema_error in Hr. intros H.
    apply app_eq_nil in H as [H _]. contradiction.
Qed.

(** The accumulation of [reduce] adds the numbers of the quantities from
    the left. *)
Lemma reduce_quantities (l : list ReturnItem) (acc : number) :
  fold_left (fun sum item => number_add sum (number_of (quantity item))) l acc
  = fold_left number_add (map (fun item => number_of (quantity item)) l) acc.
Proof.
  revert acc. induction l as [| item l IH]; intros acc; simpl;
    [reflexivity | apply IH].
Qed.

(** It is exact as long as the sum of the quantities does not exceed
    [2^53]. *)
Lemma reduce_quantities_exact (l : list ReturnItem) (acc : Z) :
  0 <= acc -> Forall (fun item => 1 <= quantity item) l ->
  acc + sum_of (map quantity l) <= 2 ^ 53 ->
  fold_left (fun sum item => number_add sum (number_of (quantity item))) l
    (number_of acc)
  = number_of (acc + sum_of (map quantity l)).
Proof.
  revert acc. induction l as [| item l IH]; intros acc Hacc Hq Hsum.
  - simpl. now rewrite Z.add_0_r.
  - inversion Hq as [| ? ? Hitem Hl]; subst. simpl in Hsum |- *.
    assert (Hnn : 0 <= sum_of (map quantity l)).
    { clear -Hl. induction Hl as [| x l' Hx _ IHl]; simpl; lia. }
    rewrite number_add_exact by lia.
    rewrite IH by (assumption || lia). f_equal. lia.
Qed.

End Validation.

(** C6.  The resolver refuses a submission without items, and a submission
    containing an item with an empty name, an item whose quantity is below
    1 (or is not a number), or an item whose condition is none of
    ['good'], ['damaged'], ['missing']; a refused submission is not
    stored.  It accepts exactly the submissions with at least one item all
    of whose items are acceptable, whatever their notes, and the parsed
    items carry the entered names and quantities. *)
Theorem return_form_validation (raw : ReturnFormView.RawFormData) :
  (ReturnFormView.raw_items raw = [] -> refused raw) /\
  (forall r, r ∈ ReturnFormView.raw_items raw ->
             ReturnFormView.raw_itemName r = "" -> refused raw) /\
  (forall r, r ∈ ReturnFormView.raw_items raw ->
             (forall q, ReturnFormView.raw_quantity r = Some q -> q < 1) ->
             refused raw) /\
  (forall r, r ∈ ReturnFormView.raw_items raw ->
             ~ In (ReturnFormView.raw_condition r)
                  ["good"; "damaged"; "missing"] ->
             refused raw) /\
  ((exists data,
      ReturnFormView.returnFormSchema raw = ReturnFormView.ParseOk data /\
      map itemName (ReturnFormView.items data)
      = map ReturnFormView.raw_itemName (ReturnFormView.raw_items raw) /\
      map (fun item => Some (quantity item)) (ReturnFormView.items data)
      = map ReturnFormView.raw_quantity (ReturnFormView.raw_items raw)) <->
   ReturnFormView.raw_items raw <> [] /\
   Forall acceptable_item (ReturnFormView.raw_items raw)).
Proof.
  assert (Hacc : forall data,
            ReturnFormView.returnFormSchema raw
            = ReturnFormView.ParseOk data ->
            ReturnFormView.raw_items raw <> [] /\
            Forall acceptable_item (ReturnFormView.raw_items raw)).
  { intros data H. apply returnFormSchema_ok in H as (Hne & Hp & _).
    split; [exact Hne | now apply parse_items_ok]. }
  assert (Href : (forall data,
                    ReturnFormView.returnFormSchema raw
                    <> ReturnFormView.ParseOk data) -> refused raw).
  { intros Hno. unfold refused, ReturnFormView.handleSubmit.
    destruct (returnFormSchema_total raw) as [[data H] | [issues H]].
    - now apply Hno in H.
    - rewrite H. split; [eauto | reflexivity]. }
  split; [| split; [| split; [| split; [| split]]]].
  - intros Hnil. apply Href. intros data H.
    apply Hacc in H as [H _]. contradiction.
  - intros r Hin Hname. apply Href. intros data H.
    apply Hacc in H as [_ H]. rewrite Forall_forall in H.
    destruct (H r Hin) as (Hn & _). contradiction.
  - intros r Hin Hq. apply Href. intros data H.
    apply Hacc in H as [_ H]. rewrite Forall_forall in H.
    destruct (H r Hin) as (_ & (q & Hs & Hle) & _).
    specialize (Hq q Hs). lia.
  - intros r Hin Hc. apply Href. intros data H.
    apply Hacc in H as [_ H]. rewrite Forall_forall in H.
    destruct (H r Hin) as (_ & _ & Hcond). contradiction.
  - intros (data & H & _). now apply (Hacc data).
  - intros [Hne Hall]. apply parse_items_ok in Hall as Hp.
    exists {| ReturnFormView.items :=
                fst (ReturnFormView.parse_items
                       (ReturnFormView.raw_items raw)) |}.
    destruct (parse_items_entered _ Hp) as [Hq Hn].
    split; [now apply returnFormSchema_ok |]. split; assumption.
Qed.

(** C4, as amended.  A submission that passes validation and reaches the
    store adds one form whose items carry the entered quantities and whose
    [totalItems] is the sum of those quantities accumulated from the left
    in binary64 arithmetic; whenever the sum of the quantities does not
    exceed [2^53] it is that sum exactly.  The form is pending and tied to
    the punch log.  Keys sent besides [items], an aggregate such as
    [totalItems] included, have no influence on what is stored. *)
Theorem total_items_is_binary64_sum_of_quantities
  (punchLog : PunchLog) (s : ReturnFormView.State) (st : Store) (now : Z)
  (raw : ReturnFormView.RawFormData) (data : ReturnFormView.FormData) :
  ReturnFormView.returnFormSchema raw = ReturnFormView.ParseOk data ->
  reachable st = true ->
  let r := ReturnFormView.handleSubmit punchLog s st now raw in
  (exists form,
     returnForms (snd (fst r)) = returnForms st ++ [form] /\
     ReturnFormView.submittedForm (fst (fst r)) = Some form /\
     map (fun item => Some (quantity item)) (rf_items form)
     = map ReturnFormView.raw_quantity (ReturnFormView.raw_items raw) /\
     rf_totalItems form
     = fold_left number_add
         (map (fun item => number_of (quantity item)) (rf_items form))
         (number_of 0) /\
     (sum_of (map quantity (rf_items form)) <= 2 ^ 53 ->
      rf_totalItems form = number_of (sum_of (map quantity (rf_items form)))
      /\
      (SF2Q (rf_totalItems form)
       == inject_Z (sum_of (map quantity (rf_items form))))%Q) /\
     rf_status form = pending /\ rf_punchLogId form = pl_id punchLog) /\
  (forall other,
     ReturnFormView.handleSubmit punchLog s st now
       {| ReturnFormView.raw_items := ReturnFormView.raw_items raw;
          ReturnFormView.raw_other := other |}
     = r).
Proof.
  intros Hok Hr r. subst r. split.
  - unfold ReturnFormView.handleSubmit. rewrite Hok.
    unfold ReturnFormView.onSubmit, createReturnForm. rewrite Hr.
    cbn [fst snd returnForms ReturnFormView.submittedForm].
    eexists. split; [reflexivity |]. split; [reflexivity |].
    cbn [returnForm_with_id rf_items rf_totalItems rf_status rf_punchLogId
         rfd_items rfd_totalItems rfd_status rfd_punchLogId].
    apply returnFormSchema_ok in Hok as (_ & Hp & ->).
    destruct (parse_items_entered _ Hp) as [Hq _].
    pose proof (parse_items_quantities _ Hp) as Hge.
    cbn [ReturnFormView.items].
    split; [exact Hq |]. split; [apply reduce_quantities |].
    split; [| split; reflexivity].
    intros Hsum.
    assert (Hnn : 0 <= sum_of (map quantity
                    (fst (ReturnFormView.parse_items
                            (ReturnFormView.raw_items raw))))).
    { clear -Hge. induction Hge as [| x l' Hx _ IHl]; simpl; lia. }
    rewrite (reduce_quantities_exact _ 0) by (assumption || lia).
    rewrite Z.add_0_l. split; [reflexivity |].
    apply number_of_value. lia.
  - intros other. unfold ReturnFormView.handleSubmit,
      ReturnFormView.returnFormSchema. reflexivity.
Qed.

Lemma total_items_is_binary64_sum_of_quantities_witness :
  exists form,
    returnForms
      (snd (fst (ReturnFormView.handleSubmit
                   (Samples.sample_punch punch_in 4000)
                   Samples.fresh_form_view Samples.sample_store 5000
                   Samples.two_items)))
    = returnForms Samples.sample_store ++ [form] /\
    rf_totalItems form = number_of 3.
Proof.
  destruct (total_items_is_binary64_sum_of_quantities
              (Samples.sample_punch punch_in 4000) Samples.fresh_form_view
              Samples.sample_store 5000 Samples.two_items
              {| ReturnFormView.items :=
                   [ {| itemName := "crate"; quantity := 2;
                        condition := good; notes := None |};
                     {| itemName := "pallet"; quantity := 1;
                        condition := damaged;
                        notes := Some "corner broken" |} ] |}
              eq_refl eq_refl)
    as [(form & Hforms & Hsub & _ & Htotal & _) _].
  exists form. split; [exact Hforms |].
  rewrite Htotal. vm_compute in Hsub. injection Hsub as <-. reflexivity.
Defined.

(** C4, as stated, fails: for the entered quantities [2^53], 1 and 1 the
    stored [totalItems] is [2^53], two less than their sum. *)
Lemma stored_total_differs_from_sum :
  ~ (forall (punchLog : PunchLog) (s : ReturnFormView.State) (st : Store)
            (now : Z) (raw : ReturnFormView.RawFormData)
            (data : ReturnFormView.FormData) (form : ReturnForm),
       ReturnFormView.returnFormSchema raw = ReturnFormView.ParseOk data ->
       reachable st = true ->
       ReturnFormView.submittedForm
         (fst (fst (ReturnFormView.handleSubmit punchLog s st now raw)))
       = Some form ->
       (SF2Q (rf_totalItems form)
        == inject_Z (sum_of (map quantity (rf_items form))))%Q).
Proof.
  intros H.
  specialize (H (Samples.sample_punch punch_in 4000) Samples.fresh_form_view
                Samples.sample_store 5000 MoreSamples.large_items
                _ _ eq_refl eq_refl eq_refl).
  vm_compute in H. discriminate.
Qed.

(** ** The admin status transition *)

Section Transition.

Lemma merge_only_status (s : Status) (g : ReturnForm) :
  same_but_status g (merge_updates (only_status s) g) /\
  rf_status (merge_updates (only_status s) g) = s.
Proof. unfold same_but_status. repeat split. Qed.

Lemma lookup_map_cases {A : Type} (f : A -> A) (l : list A) (i : nat)
  (g : A) :
  l !! i = Some g -> map f l !! i = Some (f g).
Proof.
  revert i. induction l as [| a l IH]; intros [| i]; simpl;
    try discriminate.
  - now intros [= ->].
  - apply IH.
Qed.

Lemma existsb_has_id (id : string) (l : list ReturnForm) (f : ReturnForm) :
  f ∈ l -> rf_id f = id -> existsb (has_id id) l = true.
Proof.
  intros Hin Hid. apply existsb_exists. exists f.
  split; [now apply list_elem_of_In |].
  unfold has_id. now apply String.eqb_eq.
Qed.

End Transition.

(** C5.  On a reachable store holding the form, the status transition is
    carried out whatever the current status of the form is: in the store
    and in the dashboard's list alike, every form keeps all its fields
    other than the status, the forms with the given id take the target
    status and every other form keeps its own; users, drivers and punch
    logs are untouched. *)
Theorem status_transition_overwrites_only_status
  (forms : list ReturnForm) (st : Store) (formId : string)
  (status : Decision) (f : ReturnForm) :
  reachable st = true -> f ∈ returnForms st -> rf_id f = formId ->
  let r := AdminDashboard.updateFormStatus forms st formId status in
  (length (returnForms (snd r)) = length (returnForms st) /\
   forall i g, returnForms st !! i = Some g ->
     exists g', returnForms (snd r) !! i = Some g' /\
                same_but_status g g' /\
                rf_status g' = if String.eqb (rf_id g) formId
                               then status_of status else rf_status g) /\
  (length (fst r) = length forms /\
   forall i g, forms !! i = Some g ->
     exists g', fst r !! i = Some g' /\
                same_but_status g g' /\
                rf_status g' = if String.eqb (rf_id g) formId
                               then status_of status else rf_status g) /\
  (exists f', f' ∈ returnForms (snd r) /\ same_but_status f f' /\
              rf_status f' = status_of status) /\
  users (snd r) = users st /\ drivers (snd r) = drivers st /\
  punchLogs (snd r) = punchLogs st.
Proof.
  intros Hr Hin Hid r. subst r.
  unfold AdminDashboard.updateFormStatus, updateReturnForm.
  rewrite Hr, (existsb_has_id formId _ f Hin Hid).
  cbn [andb fst snd returnForms users drivers punchLogs].
  assert (Hstore : forall i g, returnForms st !! i = Some g ->
    exists g',
      map (fun f0 => if has_id formId f0
                     then merge_updates (only_status (status_of status)) f0
                     else f0) (returnForms st) !! i = Some g' /\
      same_but_status g g' /\
      rf_status g' = if String.eqb (rf_id g) formId
                     then status_of status else rf_status g).
  { intros i g Hg. eexists. split; [exact (lookup_map_cases _ _ _ _ Hg) |].
    unfold has_id. destruct (String.eqb (rf_id g) formId).
    - apply merge_only_status.
    - unfold same_but_status. repeat split. }
  split; [split; [apply length_map | exact Hstore] |].
  split.
  - split; [apply length_map |].
    intros i g Hg. eexists. split; [exact (lookup_map_cases _ _ _ _ Hg) |].
    destruct (String.eqb (rf_id g) formId);
      unfold same_but_status; repeat split.
  - split; [| repeat split].
    apply list_elem_of_lookup in Hin as [i Hi].
    destruct (Hstore i f Hi) as (f' & Hf' & Hsame & Hst).
    exists f'. split; [apply list_elem_of_lookup; eauto |].
    split; [exact Hsame |].
    rewrite Hst. apply String.eqb_eq in Hid. now rewrite Hid.
Qed.

(** An approved form is re-decided as rejected. *)
Lemma status_transition_overwrites_only_status_witness :
  exists f',
    f' ∈ returnForms
           (snd (AdminDashboard.updateFormStatus
                   [Samples.sample_form approved]
                   (Samples.store_with_form approved) "f1"
                   decide_rejected)) /\
    same_but_status (Samples.sample_form approved) f' /\
    rf_status f' = rejected.
Proof.
  apply (status_transition_overwrites_only_status
           [Samples.sample_form approved]
           (Samples.store_with_form approved) "f1" decide_rejected
           (Samples.sample_form approved)).
  - reflexivity.
  - left.
  - reflexivity.
Defined.

(** ** The panel under the dashboard *)

Section Panel.

(** On a fresh panel the loaded last punch is the one the store returns. *)
Lemma loadLastPunch_fresh (u : User) (id : string) (st : Store)
  (s : PunchInOut.State) :
  PunchInOut.user_driverId (Some u) = Some id ->
  PunchInOut.lastPunch s = None ->
  PunchInOut.lastPunch (PunchInOut.loadLastPunch (Some u) st s)
  = getLastPunchLog st id.
Proof.
  intros Hu Hs. unfold PunchInOut.loadLastPunch. rewrite Hu.
  destruct (getLastPunchLog st id); [reflexivity | exact Hs].
Qed.

(** The loaded driver record is the lookup result, when there is one. *)
Lemma loadDriverData_lookup (u : User) (id : string) (st : Store)
  (s : PunchInOut.State) (r : gmap string value) :
  PunchInOut.user_driverId (Some u) = Some id ->
  getDriverByDriverId st id = Some r ->
  PunchInOut.driver (PunchInOut.loadDriverData (Some u) st s) = Some r.
Proof.
  intros Hu Hr. unfold PunchInOut.loadDriverData. now rewrite Hu, Hr.
Qed.

(** While the punch button is enabled the entered PIN has at least four
    characters, and the check of [handlePinPunch] then passes exactly on
    strict equality with the stored PIN. *)
Lemma pin_check_with_enabled_button (s : PunchInOut.State) (st : Store)
  (now : Z) :
  PunchInOut.pinButtonDisabled s = false ->
  PunchInOut.alert (snd (PunchInOut.handlePinPunch s st now)) = None <->
  strict_eq_string (PunchInOut.pin s) (PunchInOut.driver_pin s) = true.
Proof.
  intros Hb. unfold PunchInOut.pinButtonDisabled in Hb.
  apply orb_false_iff in Hb as [_ Hlen]. apply Nat.ltb_ge in Hlen.
  unfold PunchInOut.handlePinPunch.
  destruct (negb (truthy (PunchInOut.driver_pin s))
            || negb (strict_eq_string (PunchInOut.pin s)
                       (PunchInOut.driver_pin s))) eqn:Hg.
  - cbn [snd PunchInOut.alert]. split; [discriminate |]. intros He.
    exfalso. rewrite He in Hg. rewrite orb_false_r in Hg.
    apply negb_true_iff in Hg.
    destruct (PunchInOut.driver_pin s) as [[| | | p | |] |];
      try discriminate.
    apply String.eqb_eq in He. cbn in Hg. apply negb_false_iff in Hg.
    apply String.eqb_eq in Hg. subst p. rewrite He in Hlen.
    simpl in Hlen. lia.
  - rewrite handlePunch_no_alert. apply orb_false_iff in Hg as [_ Hg].
    apply negb_false_iff in Hg. tauto.
Qed.

End Panel.

(** ** Scenarios *)

Section Scenarios.

(** First punch of a driver with the correct PIN: one row, direction
    ['in'], method ['pin'], and the return-form step opens for it. *)
Example first_punch_with_correct_pin :
  let r := PunchInOut.handlePinPunch
             (Samples.panel (Samples.driver_with_pin "1234") "1234"
                method_pin)
             Samples.sample_store 4000 in
  map (fun p => (pl_type p, pl_method p)) (punchLogs (snd (fst r)))
  = [(punch_in, method_pin)] /\
  PunchInOut.onPunchSuccess (snd r)
  = head (punchLogs (snd (fst r))) /\
  DriverDashboard.showReturnForm
    (DriverDashboard.after_punch
       {| DriverDashboard.currentPunchLog := None;
          DriverDashboard.showReturnForm := false |} r) = true.
Proof. vm_compute. repeat split. Qed.

(** A wrong PIN leaves the ledger empty. *)
Example punch_with_wrong_pin :
  PunchInOut.handlePinPunch
    (Samples.panel (Samples.driver_with_pin "1234") "4321" method_pin)
    Samples.sample_store 4000
  = (Samples.panel (Samples.driver_with_pin "1234") "4321" method_pin,
     Samples.sample_store,
     {| PunchInOut.onPunchSuccess := None;
        PunchInOut.alert := Some "Invalid PIN" |}).
Proof. reflexivity. Qed.

(** Thresholding of sample distances. *)
Example isMatch_samples :
  FaceRecognition.isMatch (S754_zero false) = true /\
  FaceRecognition.isMatch Samples.quarter = true /\
  FaceRecognition.isMatch Samples.just_under_threshold = true /\
  FaceRecognition.isMatch FaceRecognition.threshold = false /\
  FaceRecognition.isMatch Samples.distance_055 = false /\
  FaceRecognition.isMatch S754_nan = false.
Proof. repeat split. Qed.

(** The lookup on the sample store yields the sign-up document and its
    document id, and nothing of the directory entry. *)
Example lookup_on_sample_store :
  getDriverByDriverId Samples.sample_store "D1"
  = Some (list_to_map
            [("id", VStr "uid1"); ("email", VStr "ann@example.com");
             ("role", VStr "driver"); ("driverId", VStr "D1");
             ("createdAt", VTime 1000)]) /\
  getDriverByDriverId Samples.sample_store "D2" = None.
Proof. split; vm_compute; reflexivity. Qed.

(** An empty item list and an item of quantity 0 are refused with the
    messages of the schema. *)
Example refused_submissions :
  ReturnFormView.returnFormSchema
    {| ReturnFormView.raw_items := []; ReturnFormView.raw_other := ∅ |}
  = ReturnFormView.ParseError [ReturnFormView.items_too_small] /\
  ReturnFormView.returnFormSchema
    {| ReturnFormView.raw_items :=
         [ {| ReturnFormView.raw_itemName := "";
              ReturnFormView.raw_quantity := Some 0;
              ReturnFormView.raw_condition := "lost";
              ReturnFormView.raw_notes := None |} ];
       ReturnFormView.raw_other := ∅ |}
  = ReturnFormView.ParseError
      [ReturnFormView.itemName_too_small;
       ReturnFormView.quantity_too_small;
       ReturnFormView.condition_invalid_enum_value].
Proof. split; reflexivity. Qed.

End Scenarios.

(** * Further properties *)

(** ** Ordered reads of the ledger and of the forms *)

Section OrderedReads.

Context {A : Type} (key : A -> Z) (id : A -> string).

Lemma insert_desc_by_perm (x : A) (l : list A) :
  Collections.insert_desc_by key id x l ≡ₚ x :: l.
Proof.
  induction l as [| y l IH]; simpl; [reflexivity |].
  destruct (sorts_after _ _ _ _); [| reflexivity].
  rewrite IH. apply Permutation_swap.
Qed.

Lemma orderBy_desc_perm (l : list A) :
  Collections.orderBy_desc key id l ≡ₚ l.
Proof.
  induction l as [| x l IH]; simpl; [reflexivity |].
  unfold Collections.orderBy_desc in *. simpl.
  rewrite insert_desc_by_perm. now rewrite IH.
Qed.

Lemma insert_desc_by_sorted (x : A) (l : list A) :
  StronglySorted (fun a b => key b <= key a) l ->
  StronglySorted (fun a b => key b <= key a)
    (Collections.insert_desc_by key id x l).
Proof.
  induction l as [| y l IH]; simpl; intros Hs.
  - constructor; constructor.
  - apply StronglySorted_inv in Hs as [Hs Hy].
    pose proof (sorts_after_le (key x) (id x) (key y) (id y)) as [Hlt Hge].
    destruct (sorts_after _ _ _ _);
      [specialize (Hlt eq_refl); clear Hge
      | specialize (Hge eq_refl); clear Hlt].
    + constructor; [now apply IH |].
      rewrite insert_desc_by_perm. constructor; [lia | exact Hy].
    + constructor; [now constructor |].
      constructor; [lia |].
      eapply Forall_impl; [exact Hy |]. simpl. intros b Hb. lia.
Qed.

Lemma orderBy_desc_sorted (l : list A) :
  StronglySorted (fun a b => key b <= key a)
    (Collections.orderBy_desc key id l).
Proof.
  induction l as [| x l IH]; simpl; [constructor |].
  now apply insert_desc_by_sorted.
Qed.

(** Ordering commutes with a change of the rows that keeps their keys and
    ids. *)
Lemma orderBy_desc_map (f : A -> A) (l : list A) :
  (forall x, key (f x) = key x) -> (forall x, id (f x) = id x) ->
  Collections.orderBy_desc key id (map f l)
  = map f (Collections.orderBy_desc key id l).
Proof.
  intros Hk Hi. induction l as [| x l IH]; simpl; [reflexivity |].
  unfold Collections.orderBy_desc in *. simpl. rewrite IH.
  generalize (foldr (Collections.insert_desc_by key id) [] l). clear IH.
  intros m. induction m as [| y m IHm]; simpl; [reflexivity |].
  rewrite !Hk, !Hi. destruct (sorts_after _ _ _ _); simpl;
    [now rewrite IHm |].
  reflexivity.
Qed.

End OrderedReads.

Lemma orderBy_timestamp_desc_generic (l : list PunchLog) :
  orderBy_timestamp_desc l = Collections.orderBy_desc pl_timestamp pl_id l.
Proof.
  unfold orderBy_timestamp_desc, Collections.orderBy_desc.
  induction l as [| p l IH]; simpl; [reflexivity |]. rewrite IH.
  generalize (foldr (Collections.insert_desc_by pl_timestamp pl_id) [] l).
  intros m. induction m as [| q m IHm]; simpl; [reflexivity |].
  now rewrite IHm.
Qed.

(** X1.  [getPunchLogs] returns the rows of the ledger, those of the given
    driver when an id is given, each exactly once and latest first; an
    absent and an empty id both return the rows of every driver, and an
    unreachable store yields the empty list. *)
Theorem getPunchLogs_sorted_rows (st : Store) (driverId : option string) :
  StronglySorted (fun p q => pl_timestamp q <= pl_timestamp p)
    (Collections.getPunchLogs st driverId) /\
  (reachable st = true ->
   (forall id, driverId = Some id -> id <> "" ->
      Collections.getPunchLogs st driverId
      ≡ₚ filter (fun p => of_driver id p = true) (punchLogs st)) /\
   (driverId = None \/ driverId = Some "" ->
      Collections.getPunchLogs st driverId ≡ₚ punchLogs st)) /\
  (reachable st = false -> Collections.getPunchLogs st driverId = []).
Proof.
  unfold Collections.getPunchLogs. destruct (reachable st).
  - split; [| split; [| discriminate]].
    + rewrite orderBy_timestamp_desc_generic. apply orderBy_desc_sorted.
    + intros _. split.
      * intros id -> Hne. simpl.
        destruct (String.eqb_spec id ""); [contradiction |].
        rewrite orderBy_timestamp_desc_generic. apply orderBy_desc_perm.
      * intros [-> | ->]; simpl; rewrite orderBy_timestamp_desc_generic;
          apply orderBy_desc_perm.
  - split; [constructor |]. split; [discriminate | reflexivity].
Qed.

(** X2.  For a non-empty driver id, [getLastPunchLog] is the first row of
    [getPunchLogs]. *)
Theorem getLastPunchLog_is_first_of_getPunchLogs
  (st : Store) (driverId : string) :
  driverId <> "" ->
  getLastPunchLog st driverId
  = head (Collections.getPunchLogs st (Some driverId)).
Proof.
  intros Hne. unfold getLastPunchLog, Collections.getPunchLogs. simpl.
  destruct (String.eqb_spec driverId ""); [contradiction |].
  destruct (reachable st); [| reflexivity].
  destruct (orderBy_timestamp_desc _) as [| p l]; reflexivity.
Qed.

Lemma getLastPunchLog_is_first_of_getPunchLogs_witness :
  getLastPunchLog (Samples.store_with_form pending) "D1"
  = head (Collections.getPunchLogs (Samples.store_with_form pending)
            (Some "D1")).
Proof.
  apply (getLastPunchLog_is_first_of_getPunchLogs
           (Samples.store_with_form pending) "D1").
  discriminate.
Defined.

(** X30.  [getReturnForms] returns the forms of the store, those of the
    given driver when a non-empty id is given, each exactly once and
    latest first; on a reachable store the list pushed to the admin
    dashboard is [getReturnForms] without an id. *)
Theorem getReturnForms_sorted_forms (st : Store) (driverId : option string) :
  StronglySorted (fun f g => rf_submittedAt g <= rf_submittedAt f)
    (Collections.getReturnForms st driverId) /\
  (reachable st = true ->
   (forall id, driverId = Some id -> id <> "" ->
      Collections.getReturnForms st driverId
      ≡ₚ filter (fun f => Collections.form_of_driver id f = true)
           (returnForms st)) /\
   (driverId = None \/ driverId = Some "" ->
      Collections.getReturnForms st driverId ≡ₚ returnForms st) /\
   Collections.subscribeToReturnForms st
   = Collections.getReturnForms st None) /\
  (reachable st = false -> Collections.getReturnForms st driverId = []).
Proof.
  unfold Collections.getReturnForms, Collections.subscribeToReturnForms.
  destruct (reachable st).
  - split; [apply orderBy_desc_sorted |]. split; [| discriminate].
    intros _. split; [| split; [| reflexivity]].
    + intros id -> Hne. simpl.
      destruct (String.eqb_spec id ""); [contradiction |].
      apply orderBy_desc_perm.
    + intros [-> | ->]; simpl; apply orderBy_desc_perm.
  - split; [constructor |]. split; [discriminate | reflexivity].
Qed.

(** ** The punch panel *)

(** X3.  A record returned by [getDriverByDriverId] carries the queried
    driver id and the role ['driver'], and an [id]. *)
Theorem driver_lookup_postcondition
  (st : Store) (driverId : string) (r : gmap string value) :
  getDriverByDriverId st driverId = Some r ->
  r !! "driverId" = Some (VStr driverId) /\
  r !! "role" = Some (VStr "driver") /\
  is_Some (r !! "id").
Proof.
  unfold getDriverByDriverId. destruct (reachable st); [| discriminate].
  destruct (filter _ (users st)) as [| d rest] eqn:Hf; [discriminate |].
  intros [= <-].
  apply filter_first_split in Hf as (pre & post & _ & Hd & _).
  unfold driver_query, where_eq, strict_eq_string in Hd.
  apply andb_prop in Hd as [H1 H2].
  rewrite !spread_with_id_lookup.
  destruct (snd d !! "driverId") as [[| | | t1 | |] |]; try discriminate.
  destruct (snd d !! "role") as [[| | | t2 | |] |]; try discriminate.
  apply String.eqb_eq in H1, H2. subst.
  split; [reflexivity |]. split; [reflexivity |].
  destruct (snd d !! "id"); simpl; eauto.
Qed.

Lemma driver_lookup_postcondition_witness :
  MoreSamples.signup_record !! "driverId" = Some (VStr "D1") /\
  MoreSamples.signup_record !! "role" = Some (VStr "driver") /\
  is_Some (MoreSamples.signup_record !! "id").
Proof.
  apply (driver_lookup_postcondition Samples.sample_store "D1"
           MoreSamples.signup_record).
  vm_compute. reflexivity.
Defined.

Section PunchFrame.

Lemma of_driver_row (id : string) (row : PunchLog) :
  pl_driverId row = VStr id -> of_driver id row = true.
Proof.
  intros H. unfold of_driver. rewrite H. cbn. now apply String.eqb_eq.
Qed.

(** What [handlePunch] does when the store is reachable and the driver
    record holds a [driverId] and a [name]. *)
Lemma handlePunch_written (s : PunchInOut.State) (st : Store) (now : Z)
  (type : PunchType) (m : PunchMethod) (d : gmap string value)
  (i n : value) :
  PunchInOut.driver s = Some d -> reachable st = true ->
  d !! "driverId" = Some i -> d !! "name" = Some n ->
  let row :=
    {| pl_id := autoId st (issued st); pl_driverId := i;
       pl_driverName := n; pl_type := type; pl_timestamp := now;
       pl_method := m; pl_location := None |} in
  PunchInOut.handlePunch s st now type m =
  ({| PunchInOut.driver := PunchInOut.driver s; PunchInOut.pin := "";
      PunchInOut.loading := false; PunchInOut.lastPunch := Some row;
      PunchInOut.method := PunchInOut.method s |},
   {| reachable := reachable st; autoId := autoId st;
      issued := S (issued st); users := users st; drivers := drivers st;
      punchLogs := punchLogs st ++ [row];
      returnForms := returnForms st |},
   {| PunchInOut.onPunchSuccess := Some row; PunchInOut.alert := None |}).
Proof.
  intros Hd Hr Hi Hn row.
  unfold PunchInOut.handlePunch, createPunchLog, punchLog_with_id.
  rewrite Hd, Hr. cbn. rewrite Hi, Hn. reflexivity.
Qed.

(** What it does otherwise. *)
Lemma handlePunch_not_written (s : PunchInOut.State) (st : Store) (now : Z)
  (type : PunchType) (m : PunchMethod) :
  PunchInOut.driver s = None \/ reachable st = false \/
  (exists d, PunchInOut.driver s = Some d /\
             (d !! "driverId" = None \/ d !! "name" = None)) ->
  let r := PunchInOut.handlePunch s st now type m in
  snd (fst r) = st /\ PunchInOut.onPunchSuccess (snd r) = None /\
  PunchInOut.lastPunch (fst (fst r)) = PunchInOut.lastPunch s /\
  PunchInOut.pin (fst (fst r)) = PunchInOut.pin s.
Proof.
  unfold PunchInOut.handlePunch, createPunchLog, punchLog_with_id.
  intros [Hd | [Hr | (d & Hd & Hf)]].
  - rewrite Hd. repeat split.
  - rewrite Hr. destruct (PunchInOut.driver s); repeat split.
  - rewrite Hd. cbn.
    destruct (reachable st); [| repeat split].
    destruct Hf as [Hf | Hf]; rewrite Hf;
      [| destruct (d !! "driverId")]; repeat split.
Qed.

(** [handlePunch] keeps collections other than the ledger, and the ledger
    grows at its end by at most one row. *)
Lemma handlePunch_frame (s : PunchInOut.State) (st : Store) (now : Z)
  (type : PunchType) (m : PunchMethod) :
  let st' := snd (fst (PunchInOut.handlePunch s st now type m)) in
  users st' = users st /\ drivers st' = drivers st /\
  returnForms st' = returnForms st /\ reachable st' = reachable st /\
  exists added, punchLogs st' = punchLogs st ++ added /\
                (length added <= 1)%nat /\
                Forall (fun row => pl_method row = m /\ pl_type row = type
                                   /\ pl_timestamp row = now) added.
Proof.
  assert (Hsame : users st = users st /\ drivers st = drivers st /\
            returnForms st = returnForms st /\ reachable st = reachable st /\
            exists added, punchLogs st = punchLogs st ++ added /\
                (length added <= 1)%nat /\
                Forall (fun row => pl_method row = m /\ pl_type row = type
                                   /\ pl_timestamp row = now) added).
  { repeat split. exists []. rewrite app_nil_r.
    split; [reflexivity |]. split; [simpl; lia | constructor]. }
  destruct Hsame as (H1 & H2 & H3 & _ & H5).
  unfold PunchInOut.handlePunch, createPunchLog, punchLog_with_id.
  destruct (PunchInOut.driver s) as [d |]; [| repeat split; assumption].
  destruct (reachable st) eqn:Hr; cbn; [| repeat split; assumption].
  destruct (d !! "driverId") as [i |]; cbn; [| repeat split; assumption].
  destruct (d !! "name") as [n |]; cbn; [| repeat split; assumption].
  repeat split; try assumption. eexists. split; [reflexivity |].
  split; [simpl; lia |]. repeat constructor.
Qed.

End PunchFrame.

(** X4.  A punch written while the driver record holds the driver id and
    a name, at a time later than every earlier row of that driver, is the
    row [getLastPunchLog] returns afterwards: the new row is what a
    freshly mounted panel loads. *)
Theorem punch_then_getLastPunchLog
  (s : PunchInOut.State) (st : Store) (now : Z) (type : PunchType)
  (m : PunchMethod) (d : gmap string value) (id : string) :
  PunchInOut.driver s = Some d ->
  d !! "driverId" = Some (VStr id) ->
  is_Some (d !! "name") ->
  reachable st = true ->
  (forall p, p ∈ punchLogs st -> of_driver id p = true ->
             pl_timestamp p < now) ->
  let r := PunchInOut.handlePunch s st now type m in
  (exists row, PunchInOut.onPunchSuccess (snd r) = Some row /\
               pl_type row = type /\ pl_method row = m) /\
  getLastPunchLog (snd (fst r)) id = PunchInOut.onPunchSuccess (snd r) /\
  PunchInOut.lastPunch (fst (fst r)) = getLastPunchLog (snd (fst r)) id.
Proof.
  intros Hd Hid [n Hn] Hr Hlate r. subst r.
  rewrite (handlePunch_written s st now type m d (VStr id) n Hd Hr Hid Hn).
  cbn [fst snd PunchInOut.onPunchSuccess PunchInOut.lastPunch].
  set (row := {| pl_id := autoId st (issued st) |}).
  split; [exists row; repeat split |].
  assert (Hlast : getLastPunchLog
                    {| reachable := reachable st; autoId := autoId st;
                       issued := S (issued st); users := users st;
                       drivers := drivers st;
                       punchLogs := punchLogs st ++ [row];
                       returnForms := returnForms st |} id = Some row).
  { rewrite getLastPunchLog_head by exact Hr. cbn [punchLogs].
    apply orderBy_head_strict_latest.
    - apply list_elem_of_filter. split; [now apply of_driver_row |].
      apply elem_of_app. right. now apply list_elem_of_singleton.
    - intros q Hq. apply list_elem_of_filter in Hq as [Hq Hin].
      apply elem_of_app in Hin as [Hin | Hin].
      + right. now apply Hlate.
      + left. now apply list_elem_of_singleton in Hin. }
  split; [exact Hlast | now rewrite Hlast].
Qed.

Lemma punch_then_getLastPunchLog_witness :
  getLastPunchLog
    (snd (fst (PunchInOut.handlePunch
                 (Samples.panel (Samples.driver_with_pin "1234") "1234"
                    method_pin)
                 (Samples.store_with_form pending) 6000 punch_out
                 method_pin))) "D1"
  = PunchInOut.onPunchSuccess
      (snd (PunchInOut.handlePunch
              (Samples.panel (Samples.driver_with_pin "1234") "1234"
                 method_pin)
              (Samples.store_with_form pending) 6000 punch_out
              method_pin)).
Proof.
  apply (punch_then_getLastPunchLog
           (Samples.panel (Samples.driver_with_pin "1234") "1234"
              method_pin)
           (Samples.store_with_form pending) 6000 punch_out method_pin
           (Samples.driver_with_pin "1234") "D1").
  - reflexivity.
  - reflexivity.
  - exists (VStr "Ann"). reflexivity.
  - reflexivity.
  - intros p Hp _. apply list_elem_of_singleton in Hp. subst p.
    simpl. lia.
Defined.

(** X5.  The status badge and the offered action agree: the driver is
    shown as punched in exactly when the next action is ['out'].  After a
    punch of the derived direction that was written (the store reachable,
    the driver record holding a [driverId] and a [name]), the offered
    action has flipped and the PIN field is empty; after one that was not
    written, last punch and PIN field are as before. *)
Theorem punch_flips_offered_action
  (s : PunchInOut.State) (st : Store) (now : Z) (m : PunchMethod) :
  let type := PunchInOut.nextPunchType (PunchInOut.lastPunch s) in
  let s' := fst (fst (PunchInOut.handlePunch s st now type m)) in
  (forall lastPunch,
     PunchPanel.isLoggedIn lastPunch = true <->
     PunchInOut.nextPunchType lastPunch = punch_out) /\
  ((exists d, PunchInOut.driver s = Some d /\
              is_Some (d !! "driverId") /\ is_Some (d !! "name")) /\
   reachable st = true ->
   PunchInOut.nextPunchType (PunchInOut.lastPunch s') <> type /\
   PunchPanel.isLoggedIn (PunchInOut.lastPunch s')
   = negb (PunchPanel.isLoggedIn (PunchInOut.lastPunch s)) /\
   PunchInOut.pin s' = "") /\
  (PunchInOut.driver s = None \/ reachable st = false \/
   (exists d, PunchInOut.driver s = Some d /\
              (d !! "driverId" = None \/ d !! "name" = None)) ->
   PunchInOut.lastPunch s' = PunchInOut.lastPunch s /\
   PunchInOut.pin s' = PunchInOut.pin s).
Proof.
  intros type s'. subst s'. split; [| split].
  - intros [p |]; simpl; [| split; discriminate].
    unfold PunchInOut.nextPunchType. destruct (pl_type p); simpl;
      split; congruence.
  - intros [(d & Hd & [i Hi] & [n Hn]) Hr].
    rewrite (handlePunch_written s st now type m d i n Hd Hr Hi Hn).
    cbn. subst type. unfold PunchInOut.nextPunchType.
    destruct (PunchInOut.lastPunch s) as [p |]; simpl;
      [destruct (pl_type p) |]; simpl; repeat split; discriminate.
  - intros H.
    destruct (handlePunch_not_written s st now type m H) as (_ & _ & H1 & H2).
    split; assumption.
Qed.

(** X6.  No handler of the punch panel touches users, drivers or return
    forms, and none removes or rewrites a row of the ledger: the ledger
    grows at its end by at most one row, stamped with the current time. *)
Theorem punch_handlers_only_append
  (api : FaceRecognition.FaceApi) (s : PunchInOut.State) (st : Store)
  (now : Z) (verified : bool) (fs : FaceRecognition.State) (refs : bool)
  (detection : outcome (option (list number))) :
  Forall
    (fun st' =>
       users st' = users st /\ drivers st' = drivers st /\
       returnForms st' = returnForms st /\
       exists added, punchLogs st' = punchLogs st ++ added /\
                     (length added <= 1)%nat /\
                     Forall (fun row => pl_timestamp row = now) added)
    [ snd (fst (PunchInOut.handlePinPunch s st now));
      snd (fst (PunchPanel.pressPunchButton s st now));
      snd (fst (PunchInOut.handleFaceVerified s st now verified));
      snd (fst (PunchInOut.verifyFace api s st now fs refs detection)) ].
Proof.
  set (P := fun st' : Store =>
       users st' = users st /\ drivers st' = drivers st /\
       returnForms st' = returnForms st /\
       exists added, punchLogs st' = punchLogs st ++ added /\
                     (length added <= 1)%nat /\
                     Forall (fun row => pl_timestamp row = now) added).
  assert (Hsame : P st).
  { unfold P. repeat split. exists []. rewrite app_nil_r.
    split; [reflexivity |]. split; [simpl; lia | constructor]. }
  assert (Hpunch : forall type m,
            P (snd (fst (PunchInOut.handlePunch s st now type m)))).
  { intros type m. unfold P.
    destruct (handlePunch_frame s st now type m)
      as (H1 & H2 & H3 & _ & added & H4 & H5 & H6).
    repeat split; try assumption. exists added.
    split; [exact H4 |]. split; [exact H5 |].
    eapply Forall_impl; [exact H6 |]. intros row (_ & _ & H). exact H. }
  assert (Hpin : P (snd (fst (PunchInOut.handlePinPunch s st now)))).
  { unfold PunchInOut.handlePinPunch.
    destruct (_ || _); [exact Hsame | apply Hpunch]. }
  constructor; [exact Hpin |]. constructor.
  { unfold PunchPanel.pressPunchButton.
    destruct (PunchInOut.pinButtonDisabled s); [exact Hsame | exact Hpin]. }
  constructor.
  { unfold PunchInOut.handleFaceVerified.
    destruct verified; [apply Hpunch | exact Hsame]. }
  constructor; [| constructor].
  unfold PunchInOut.verifyFace.
  destruct (PunchInOut.driver s); [| exact Hsame].
  destruct (PunchInOut.method s); [| exact Hsame].
  destruct (FaceRecognition.onFaceVerified _) as [v |]; [| exact Hsame].
  unfold PunchInOut.handleFaceVerified.
  destruct v; [apply Hpunch | exact Hsame].
Qed.

(** X7.  On the face tab, with the driver loaded from a record that
    holds a [driverId] and a [name], a stored descriptor, the models
    loaded and a face detected, a distance below 4/10 punches once with
    method ['face'] and the derived direction when the store is reachable;
    a distance of 4/10 or more, or a NaN, changes nothing. *)
Theorem face_punch_end_to_end
  (api : FaceRecognition.FaceApi) (s : PunchInOut.State) (st : Store)
  (now : Z) (fs : FaceRecognition.State) (d : gmap string value)
  (stored : value) (live arr : list number) (distance : number) :
  PunchInOut.driver s = Some d ->
  is_Some (d !! "driverId") -> is_Some (d !! "name") ->
  PunchInOut.method s = method_face ->
  d !! "faceDescriptor" = Some stored ->
  truthy (Some stored) = true ->
  FaceRecognition.isLoaded fs = true ->
  FaceRecognition.Float32Array api stored = Resolved arr ->
  FaceRecognition.euclideanDistance api live arr = Resolved distance ->
  valid_binary prec emax distance = true ->
  reachable st = true ->
  let r := PunchInOut.verifyFace api s st now fs true
             (Resolved (Some live)) in
  (lt_real distance (4 # 10) ->
   exists row,
     punchLogs (snd (fst r)) = punchLogs st ++ [row] /\
     pl_method row = method_face /\
     pl_type row = PunchInOut.nextPunchType (PunchInOut.lastPunch s) /\
     PunchInOut.onPunchSuccess (snd r) = Some row) /\
  (~ lt_real distance (4 # 10) -> r = (s, st, PunchInOut.no_effects)).
Proof.
  intros Hd Hi Hn Hm Hf Ht Hl Ha He Hv Hr r. subst r.
  unfold PunchInOut.verifyFace. rewrite Hd, Hm.
  unfold PunchInOut.driver_faceDescriptor. rewrite Hd, Hf.
  unfold FaceRecognition.detectFace. rewrite Hl.
  cbn [negb orb FaceRecognition.isEnrolling
       FaceRecognition.driverFaceDescriptor].
  rewrite Ht, Ha, He. cbn [snd FaceRecognition.onFaceVerified].
  pose proof (isMatch_iff_lt_real distance Hv) as Hiff.
  unfold PunchInOut.handleFaceVerified.
  destruct (FaceRecognition.isMatch distance).
  - split; [intros _ | intros H; exfalso; apply H; now apply Hiff].
    destruct (handlePunch_appends s st now
                (PunchInOut.nextPunchType (PunchInOut.lastPunch s))
                method_face d Hd Hr Hi Hn)
      as (row & H1 & H2 & H3 & _ & H5 & _).
    exists row. auto.
  - split; [| reflexivity]. intros H. apply Hiff in H. discriminate.
Qed.

(** X7 at a distance of 1/4: the first punch of the enrolled sample
    driver is written. *)
Lemma face_punch_end_to_end_witness :
  exists row,
    punchLogs
      (snd (fst (PunchInOut.verifyFace (Samples.constant_api Samples.quarter)
                   (Samples.panel MoreSamples.enrolled_driver "" method_face)
                   Samples.sample_store 4000 MoreSamples.loaded_face true
                   (Resolved (Some [])))))
    = punchLogs Samples.sample_store ++ [row] /\
    pl_method row = method_face /\
    pl_type row = PunchInOut.nextPunchType None /\
    PunchInOut.onPunchSuccess
      (snd (PunchInOut.verifyFace (Samples.constant_api Samples.quarter)
              (Samples.panel MoreSamples.enrolled_driver "" method_face)
              Samples.sample_store 4000 MoreSamples.loaded_face true
              (Resolved (Some []))))
    = Some row.
Proof.
  apply (face_punch_end_to_end (Samples.constant_api Samples.quarter)
           (Samples.panel MoreSamples.enrolled_driver "" method_face)
           Samples.sample_store 4000 MoreSamples.loaded_face
           MoreSamples.enrolled_driver (VArr []) [] []
           Samples.quarter);
    try reflexivity.
  - exists (VStr "D1"). reflexivity.
  - exists (VStr "Ann"). reflexivity.
Defined.

(** X8.  On a reachable store a press of the punch button punches
    exactly when no punch is in progress, the entered PIN has at least
    four characters and is strictly equal to the stored PIN, and the
    driver record holds a [driverId] and a [name]. *)
Theorem punch_button_punches_iff
  (s : PunchInOut.State) (st : Store) (now : Z) :
  reachable st = true ->
  is_Some (PunchInOut.onPunchSuccess
             (snd (PunchPanel.pressPunchButton s st now))) <->
  PunchInOut.loading s = false /\
  (4 <= String.length (PunchInOut.pin s))%nat /\
  strict_eq_string (PunchInOut.pin s) (PunchInOut.driver_pin s) = true /\
  exists d, PunchInOut.driver s = Some d /\
            is_Some (d !! "driverId") /\ is_Some (d !! "name").
Proof.
  intros Hr. unfold PunchPanel.pressPunchButton.
  destruct (PunchInOut.pinButtonDisabled s) eqn:Hb.
  - split; [intros [x H]; discriminate |].
    intros (Hl & Hlen & _). unfold PunchInOut.pinButtonDisabled in Hb.
    rewrite Hl in Hb. simpl in Hb. apply Nat.ltb_lt in Hb. lia.
  - pose proof (pin_check_with_enabled_button s st now Hb) as Hcheck.
    unfold PunchInOut.pinButtonDisabled in Hb.
    apply orb_false_iff in Hb as [Hl Hlen]. apply Nat.ltb_ge in Hlen.
    destruct (strict_eq_string (PunchInOut.pin s) (PunchInOut.driver_pin s))
      eqn:He.
    + pose proof (proj2 Hcheck eq_refl) as Hal.
      unfold PunchInOut.handlePinPunch in Hal |- *. rewrite He in *.
      destruct (negb (truthy (PunchInOut.driver_pin s)) || negb true);
        [discriminate |].
      pose proof (handlePunch_writes s st now
                    (PunchInOut.nextPunchType (PunchInOut.lastPunch s))
                    method_pin) as (Hw & _ & _).
      rewrite Hw. split.
      * intros (_ & Hd). auto.
      * intros (_ & _ & _ & Hd). auto.
    + split; [| intros (_ & _ & H & _); discriminate].
      unfold PunchInOut.handlePinPunch. rewrite He. simpl.
      rewrite orb_true_r. intros [x H]. discriminate.
Qed.

Lemma punch_button_punches_iff_witness :
  is_Some (PunchInOut.onPunchSuccess
             (snd (PunchPanel.pressPunchButton
                     (Samples.panel (Samples.driver_with_pin "1234") "1234"
                        method_pin) Samples.sample_store 4000))).
Proof.
  apply (punch_button_punches_iff
           (Samples.panel (Samples.driver_with_pin "1234") "1234"
              method_pin) Samples.sample_store 4000).
  - reflexivity.
  - split; [reflexivity |]. split; [simpl; lia |].
    split; [reflexivity |]. exists (Samples.driver_with_pin "1234").
    split; [reflexivity |].
    split; [exists (VStr "D1") | exists (VStr "Ann")]; reflexivity.
Defined.

(** X9.  The PIN field takes at most six characters and the punch button
    is disabled below four: a stored PIN shorter than four or longer than
    six characters can never punch through the button, whatever is
    typed. *)
Theorem pin_of_unusable_length_never_punches
  (s : PunchInOut.State) (st : Store) (now : Z) (p : string) :
  PunchInOut.driver_pin s = Some (VStr p) ->
  (String.length (PunchInOut.pin s) <= PunchPanel.pinMaxLength)%nat ->
  (String.length p < 4 \/ PunchPanel.pinMaxLength < String.length p)%nat ->
  snd (fst (PunchPanel.pressPunchButton s st now)) = st /\
  PunchInOut.onPunchSuccess (snd (PunchPanel.pressPunchButton s st now))
  = None.
Proof.
  intros Hp Hmax Hlen. unfold PunchPanel.pressPunchButton.
  destruct (PunchInOut.pinButtonDisabled s) eqn:Hb; [split; reflexivity |].
  unfold PunchInOut.pinButtonDisabled in Hb.
  apply orb_false_iff in Hb as [_ Hb]. apply Nat.ltb_ge in Hb.
  unfold PunchInOut.handlePinPunch. rewrite Hp.
  destruct (String.eqb_spec (PunchInOut.pin s) p) as [He | Hne].
  - exfalso. rewrite He in Hb, Hmax. unfold PunchPanel.pinMaxLength in *.
    lia.
  - cbn [strict_eq_string]. apply String.eqb_neq in Hne. rewrite Hne.
    rewrite orb_true_r. split; reflexivity.
Qed.

Lemma pin_of_unusable_length_never_punches_witness :
  snd (fst (PunchPanel.pressPunchButton
              (Samples.panel (Samples.driver_with_pin "123") "123"
                 method_pin) Samples.sample_store 4000))
  = Samples.sample_store.
Proof.
  apply (pin_of_unusable_length_never_punches
           (Samples.panel (Samples.driver_with_pin "123") "123" method_pin)
           Samples.sample_store 4000 "123").
  - reflexivity.
  - unfold PunchPanel.pinMaxLength. simpl. lia.
  - left. simpl. lia.
Defined.

(** ** Face detection, camera and model loading *)

(** X10.  A run of [detectFace] that finds the elements mounted and the
    models loaded ends with [isDetecting] off and a status that tells
    which callback ran: ['verified'] exactly when a match or an enrolment
    was reported, ['failed'] exactly when [onFaceVerified(false)] was
    called, and ['detecting'], left on screen, exactly when no callback
    ran (a face was found but there is nothing to compare it with).
    Otherwise the run does nothing at all. *)
Theorem detectFace_status_tells_callback
  (api : FaceRecognition.FaceApi) (props : FaceRecognition.Props)
  (s : FaceRecognition.State) (refs : bool)
  (detection : outcome (option (list number))) :
  let r := FaceRecognition.detectFace api props s refs detection in
  (refs && FaceRecognition.isLoaded s = false ->
   r = (s, FaceRecognition.no_calls)) /\
  (refs && FaceRecognition.isLoaded s = true ->
   FaceRecognition.isDetecting (fst r) = false /\
   FaceRecognition.status (fst r) <> FaceRecognition.idle /\
   (FaceRecognition.status (fst r) = FaceRecognition.verified <->
    FaceRecognition.onFaceVerified (snd r) = Some true \/
    is_Some (FaceRecognition.onFaceEnrolled (snd r))) /\
   (FaceRecognition.status (fst r) = FaceRecognition.failed <->
    FaceRecognition.onFaceVerified (snd r) = Some false) /\
   (FaceRecognition.status (fst r) = FaceRecognition.detecting <->
    snd r = FaceRecognition.no_calls) /\
   (FaceRecognition.onFaceVerified (snd r) = None \/
    FaceRecognition.onFaceEnrolled (snd r) = None)).
Proof.
  intros r. subst r. unfold FaceRecognition.detectFace.
  destruct refs, (FaceRecognition.isLoaded s) eqn:Hl;
    cbn [negb orb andb]; (split; [first [discriminate | reflexivity] |]);
    try discriminate.
  intros _.
  destruct detection as [[live |] |];
    [ destruct (FaceRecognition.isEnrolling props);
      [ | destruct (FaceRecognition.driverFaceDescriptor props)
            as [stored |];
          [ destruct (truthy (Some stored));
            [ destruct (FaceRecognition.Float32Array api stored)
                as [arr |];
              [ destruct (FaceRecognition.euclideanDistance api live arr)
                  as [distance |];
                [ destruct (FaceRecognition.isMatch distance) | ] | ] | ]
          | ] ]
    | | ];
    cbn; repeat split; try discriminate; eauto;
    try (intros [H | [x H]]; discriminate).
Qed.

(** X11.  Enrolment never compares: while enrolling, what [detectFace]
    does is the same for every stored descriptor and every behaviour of
    the distance functions, and a detected face is always recorded. *)
Theorem enrolment_ignores_stored_descriptor
  (api api' : FaceRecognition.FaceApi) (stored stored' : field)
  (s : FaceRecognition.State) (refs : bool)
  (detection : outcome (option (list number))) :
  FaceRecognition.detectFace api
    {| FaceRecognition.driverFaceDescriptor := stored;
       FaceRecognition.isEnrolling := true |} s refs detection
  = FaceRecognition.detectFace api'
      {| FaceRecognition.driverFaceDescriptor := stored';
         FaceRecognition.isEnrolling := true |} s refs detection /\
  (forall live,
     refs && FaceRecognition.isLoaded s = true ->
     detection = Resolved (Some live) ->
     FaceRecognition.onFaceEnrolled
       (snd (FaceRecognition.detectFace api
               {| FaceRecognition.driverFaceDescriptor := stored;
                  FaceRecognition.isEnrolling := true |} s refs detection))
     = Some live).
Proof.
  unfold FaceRecognition.detectFace. split.
  - destruct (negb refs || negb (FaceRecognition.isLoaded s));
      [reflexivity |].
    destruct detection as [[live |] |]; reflexivity.
  - intros live Hr ->. apply andb_prop in Hr as [-> ->]. reflexivity.
Qed.

Section CameraLife.

(** The stream the component holds is running. *)
Lemma camera_step_invariant (s : Camera.State) (e : bool * Camera.Event) :
  (forall h, Camera.stream s = Some h -> h ∈ Camera.running s) ->
  forall h, Camera.stream (Camera.step s e) = Some h ->
            h ∈ Camera.running (Camera.step s e).
Proof.
  intros Hinv. destruct e as [isLoaded [| [m |] |]];
    unfold Camera.step; cbn [fst snd].
  - destruct (Camera.startDisabled isLoaded s); exact Hinv.
  - unfold Camera.resume. destruct (Camera.requested s); [exact Hinv |].
    cbn. intros h [= <-]. apply elem_of_union. right.
    now apply elem_of_singleton.
  - unfold Camera.resume. destruct (Camera.requested s); exact Hinv.
  - destruct (Camera.stopDisabled s); [exact Hinv |].
    unfold Camera.stopCamera.
    destruct (Camera.stream s) as [h0 |] eqn:Hs; cbn; [discriminate |].
    rewrite Hs. discriminate.
Qed.

Lemma camera_run_invariant (evs : list (bool * Camera.Event))
  (s : Camera.State) :
  (forall h, Camera.stream s = Some h -> h ∈ Camera.running s) ->
  forall h, Camera.stream (Camera.run evs s) = Some h ->
            h ∈ Camera.running (Camera.run evs s).
Proof.
  revert s. induction evs as [| e evs IH]; intros s Hinv; [exact Hinv |].
  simpl. apply IH. now apply camera_step_invariant.
Qed.

End CameraLife.

(** X12.  Whatever the presses of the camera buttons and the outcomes of
    [getUserMedia], the stream the component holds is running.  The
    clean-up of the mount effect closes over the initial [stream], which
    is null, so unmounting stops nothing: a held stream keeps running
    after the component is gone.  The Start button is disabled by the
    held stream only, so it can be pressed again before [getUserMedia]
    settles; the second stream then replaces the first in the state, Stop
    Camera stops the second, and the first keeps running with the Stop
    button disabled. *)
Theorem camera_streams_outlive_the_component
  (evs : list (bool * Camera.Event)) :
  let s := Camera.run evs Camera.initial in
  (forall h, Camera.stream s = Some h -> h ∈ Camera.running s) /\
  Camera.running (Camera.unmount s) = Camera.running s /\
  (forall h, Camera.stream s = Some h ->
             h ∈ Camera.running (Camera.unmount s)) /\
  (forall h1 h2 : nat, h1 <> h2 ->
     let t :=
       Camera.run
         [ (true, Camera.PressStart); (true, Camera.PressStart);
           (true, Camera.Settled (Resolved h1));
           (true, Camera.Settled (Resolved h2));
           (true, Camera.PressStop) ] Camera.initial in
     h1 ∈ Camera.running t /\ (h2 ∉ Camera.running t) /\
     Camera.stream t = None /\ Camera.stopDisabled t = true).
Proof.
  intros s.
  assert (Hinv : forall h, Camera.stream s = Some h -> h ∈ Camera.running s).
  { apply camera_run_invariant. discriminate. }
  split; [exact Hinv |]. split; [reflexivity |]. split; [exact Hinv |].
  intros h1 h2 Hne t. subst t. cbn. split; [| split; [| split]].
  - apply elem_of_difference. split.
    + apply elem_of_union. left. apply elem_of_union. right.
      now apply elem_of_singleton.
    + intros H. apply elem_of_singleton in H. contradiction.
  - intros H. apply elem_of_difference in H as [_ H]. apply H.
    now apply elem_of_singleton.
  - reflexivity.
  - reflexivity.
Qed.

Section LoadOnce.

Import FaceApiModels.

Lemma models_step_invariant (s : State) (e : Event) :
  (loadsBegun s <= 1)%nat /\
  (loadingPromise s = None -> loadsBegun s = 0%nat) /\
  (modelsLoaded s = true -> loadingPromise s = Some Fulfilled) ->
  (loadsBegun (step s e) <= 1)%nat /\
  (loadingPromise (step s e) = None -> loadsBegun (step s e) = 0%nat) /\
  (modelsLoaded (step s e) = true ->
   loadingPromise (step s e) = Some Fulfilled).
Proof.
  intros (H1 & H2 & H3). destruct e as [| ok]; simpl.
  - unfold loadFaceApiModels.
    destruct (modelsLoaded s) eqn:Hm; simpl; [auto |].
    destruct (loadingPromise s) as [p |] eqn:Hp; simpl.
    + rewrite Hm, Hp. auto.
    + rewrite (H2 eq_refl). repeat split; [lia | discriminate ..].
  - unfold settle.
    destruct (loadingPromise s) as [[| |] |] eqn:Hp; try (rewrite Hp; auto).
    destruct ok; simpl; repeat split; auto; try discriminate.
    intros Hm. specialize (H3 Hm). discriminate.
Qed.

Lemma models_failed_is_final (s : State) (e : Event) :
  loadingPromise s = Some Failed -> modelsLoaded s = false ->
  step s e = s.
Proof.
  intros Hp Hm. destruct e as [| ok]; simpl.
  - unfold loadFaceApiModels. now rewrite Hm, Hp.
  - unfold settle. now rewrite Hp.
Qed.

Lemma models_run_invariant (evs : list Event) (s : State) :
  (loadsBegun s <= 1)%nat /\
  (loadingPromise s = None -> loadsBegun s = 0%nat) /\
  (modelsLoaded s = true -> loadingPromise s = Some Fulfilled) ->
  (loadsBegun (run evs s) <= 1)%nat /\
  (loadingPromise (run evs s) = None -> loadsBegun (run evs s) = 0%nat) /\
  (modelsLoaded (run evs s) = true ->
   loadingPromise (run evs s) = Some Fulfilled).
Proof.
  revert s. induction evs as [| e evs IH]; intros s Hs; [exact Hs |].
  simpl. apply IH. now apply models_step_invariant.
Qed.

Lemma models_run_failed (evs : list Event) (s : State) :
  loadingPromise s = Some Failed -> modelsLoaded s = false ->
  run evs s = s.
Proof.
  intros Hp Hm. induction evs as [| e evs IH]; [reflexivity |].
  simpl. now rewrite (models_failed_is_final s e Hp Hm).
Qed.

End LoadOnce.

(** X13.  Whatever the order of calls and settlements, the loading of the
    model files is begun at most once, and the loaded flag is set only
    with a fulfilled load.  A failed load is final: the rejected promise
    is kept, so every later call is answered with it, no new load is
    begun and the models never count as loaded. *)
Theorem models_load_once_and_never_retry
  (before after : list FaceApiModels.Event) :
  let s := FaceApiModels.run (before ++ after) FaceApiModels.initial in
  (FaceApiModels.loadsBegun s <= 1)%nat /\
  (FaceApiModels.areModelsLoaded s = true ->
   FaceApiModels.loadingPromise s = Some FaceApiModels.Fulfilled /\
   snd (FaceApiModels.loadFaceApiModels s) = FaceApiModels.Nothing) /\
  (FaceApiModels.loadingPromise
     (FaceApiModels.run before FaceApiModels.initial)
   = Some FaceApiModels.Failed ->
   s = FaceApiModels.run before FaceApiModels.initial /\
   FaceApiModels.areModelsLoaded s = false /\
   FaceApiModels.loadFaceApiModels s = (s, FaceApiModels.Shared)).
Proof.
  intros s.
  assert (Hinit : (FaceApiModels.loadsBegun FaceApiModels.initial <= 1)%nat /\
                  (FaceApiModels.loadingPromise FaceApiModels.initial = None
                   -> FaceApiModels.loadsBegun FaceApiModels.initial = 0%nat)
                  /\ (FaceApiModels.modelsLoaded FaceApiModels.initial = true
                      -> FaceApiModels.loadingPromise FaceApiModels.initial
                         = Some FaceApiModels.Fulfilled)).
  { simpl. repeat split; [lia | discriminate]. }
  destruct (models_run_invariant (before ++ after) _ Hinit)
    as (H1 & _ & H3).
  fold s in H1, H3. split; [exact H1 |]. split.
  - unfold FaceApiModels.areModelsLoaded. intros Hm.
    split; [now apply H3 |].
    unfold FaceApiModels.loadFaceApiModels. now rewrite Hm.
  - intros Hf.
    destruct (models_run_invariant before _ Hinit) as (_ & _ & H3').
    assert (Hm : FaceApiModels.modelsLoaded
                   (FaceApiModels.run before FaceApiModels.initial) = false).
    { destruct (FaceApiModels.modelsLoaded
                  (FaceApiModels.run before FaceApiModels.initial)) eqn:Hm;
        [| reflexivity].
      specialize (H3' eq_refl). congruence. }
    assert (Hs : s = FaceApiModels.run before FaceApiModels.initial).
    { subst s. unfold FaceApiModels.run. rewrite fold_left_app.
      now apply models_run_failed. }
    split; [exact Hs |]. rewrite Hs.
    split; [exact Hm |].
    unfold FaceApiModels.loadFaceApiModels. now rewrite Hm, Hf.
Qed.

(** ** The return form before submission *)

Section FormEditing.

Import ReturnFormView.

Lemma field_array_act_length (fields : list RawItem)
  (a : FieldArray.Action) :
  (1 <= length fields)%nat -> (1 <= length (FieldArray.act fields a))%nat.
Proof.
  intros H. destruct a as [| index | index r]; simpl.
  - unfold FieldArray.append. rewrite length_app. simpl. lia.
  - unfold FieldArray.pressRemove, FieldArray.removeShown.
    destruct (Nat.ltb_spec 1 (length fields)) as [Hlt | Hge]; [| exact H].
    destruct (fields !! index) as [x |] eqn:Hx.
    + rewrite length_delete by eauto. lia.
    + rewrite delete_take_drop.
      apply lookup_ge_None in Hx.
      rewrite take_ge by lia. rewrite drop_ge by lia.
      rewrite app_nil_r. exact H.
  - unfold FieldArray.edit. now rewrite length_insert.
Qed.

Lemma field_array_run_length (actions : list FieldArray.Action)
  (fields : list RawItem) :
  (1 <= length fields)%nat ->
  (1 <= length (fold_left FieldArray.act actions fields))%nat.
Proof.
  revert fields. induction actions as [| a actions IH]; intros fields H;
    [exact H |].
  simpl. apply IH. now apply field_array_act_length.
Qed.

Lemma returnItemSchema_no_items_issue (r : RawItem) (errs : list Issue) :
  returnItemSchema r = ParseError errs -> items_too_small ∉ errs.
Proof.
  unfold returnItemSchema, itemName_issues, quantity_issues,
    condition_issues.
  destruct (1 <=? String.length (raw_itemName r))%nat;
    destruct (raw_quantity r) as [q |];
    try destruct (1 <=? q);
    destruct (condition_enum (raw_condition r)) as [c |];
    cbn [app]; intros [= <-]; rewrite ?not_elem_of_cons;
    repeat split; try discriminate; apply not_elem_of_nil.
Qed.

Lemma parse_items_no_items_issue (l : list RawItem) :
  items_too_small ∉ snd (parse_items l).
Proof.
  induction l as [| r l IH]; simpl; [apply not_elem_of_nil |].
  destruct (parse_items l) as [parsed issues]. simpl in IH.
  destruct (returnItemSchema r) as [item | errs] eqn:Hr; simpl;
    [exact IH |].
  apply returnItemSchema_no_items_issue in Hr.
  intros [H | H]%elem_of_app; contradiction.
Qed.

(** On entered items whose quantities are at least 1 the badge
    accumulates what [onSubmit] accumulates on the parsed items. *)
Lemma shownTotal_parsed (l : list RawItem) (parsed : list ReturnItem)
  (acc : number) :
  map (fun item => Some (quantity item)) parsed = map raw_quantity l ->
  Forall (fun item => 1 <= quantity item) parsed ->
  fold_left
    (fun sum item =>
       number_add sum
         (number_of (FieldArray.quantity_or_0 (raw_quantity item))))
    l acc
  = fold_left (fun sum item => number_add sum (number_of (quantity item)))
      parsed acc.
Proof.
  revert parsed acc.
  induction l as [| r l IH]; intros [| item parsed] acc; simpl;
    try discriminate; [reflexivity |].
  intros [= Hq Hrest] Hall. inversion Hall as [| ? ? Hge Hall']; subst.
  rewrite <- Hq. cbn [FieldArray.quantity_or_0].
  destruct (Z.eqb_spec (quantity item) 0) as [H0 | _]; [lia |].
  now apply IH.
Qed.

End FormEditing.

(** X14.  Starting from the default values, no sequence of adding,
    removing (offered only while more than one item is left) and editing
    items empties the list: the resolver never reports that an item is
    missing for a form filled in through the buttons. *)
Theorem field_array_never_empty
  (actions : list FieldArray.Action) (other : gmap string value) :
  FieldArray.run actions <> [] /\
  forall issues,
    ReturnFormView.returnFormSchema
      {| ReturnFormView.raw_items := FieldArray.run actions;
         ReturnFormView.raw_other := other |}
    = ReturnFormView.ParseError issues ->
    ReturnFormView.items_too_small ∉ issues.
Proof.
  assert (Hlen : (1 <= length (FieldArray.run actions))%nat).
  { apply field_array_run_length. simpl. lia. }
  split.
  - intros H. rewrite H in Hlen. simpl in Hlen. lia.
  - intros issues. unfold ReturnFormView.returnFormSchema.
    cbn [ReturnFormView.raw_items].
    pose proof (parse_items_no_items_issue (FieldArray.run actions)) as Hno.
    destruct (ReturnFormView.parse_items (FieldArray.run actions))
      as [parsed errs]. simpl in Hno.
    destruct (Nat.leb_spec 1 (length (FieldArray.run actions)));
      [| lia].
    simpl. destruct errs as [| e errs]; [discriminate |].
    intros [= <-]. exact Hno.
Qed.

(** X15.  A form that still holds an untouched blank item, as the default
    values and the add button create it, is refused. *)
Theorem blank_item_is_refused (raw : ReturnFormView.RawFormData) :
  FieldArray.blankItem ∈ ReturnFormView.raw_items raw -> refused raw.
Proof.
  intros Hin. unfold refused, ReturnFormView.handleSubmit.
  destruct (ReturnFormView.returnFormSchema raw) as [data | issues] eqn:H.
  - exfalso. apply returnFormSchema_ok in H as (_ & Hp & _).
    apply parse_items_ok in Hp. rewrite Forall_forall in Hp.
    destruct (Hp _ Hin) as [Hname _]. now apply Hname.
  - split; [eauto | reflexivity].
Qed.

Lemma blank_item_is_refused_witness :
  refused {| ReturnFormView.raw_items := FieldArray.run [FieldArray.Append];
             ReturnFormView.raw_other := ∅ |}.
Proof.
  apply (blank_item_is_refused
           {| ReturnFormView.raw_items :=
                FieldArray.run [FieldArray.Append];
              ReturnFormView.raw_other := ∅ |}).
  left.
Defined.

(** X16.  For a submission that passes validation, the total shown in the
    badge is the [totalItems] that is stored. *)
Theorem shown_total_is_stored_total
  (punchLog : PunchLog) (s : ReturnFormView.State) (st : Store) (now : Z)
  (raw : ReturnFormView.RawFormData) (data : ReturnFormView.FormData) :
  ReturnFormView.returnFormSchema raw = ReturnFormView.ParseOk data ->
  reachable st = true ->
  exists form,
    ReturnFormView.submittedForm
      (fst (fst (ReturnFormView.handleSubmit punchLog s st now raw)))
    = Some form /\
    rf_totalItems form = FieldArray.shownTotal (ReturnFormView.raw_items raw).
Proof.
  intros Hok Hr. unfold ReturnFormView.handleSubmit. rewrite Hok.
  unfold ReturnFormView.onSubmit, createReturnForm. rewrite Hr.
  cbn [fst snd ReturnFormView.submittedForm].
  eexists. split; [reflexivity |].
  cbn [returnForm_with_id rf_totalItems rfd_totalItems].
  apply returnFormSchema_ok in Hok as (_ & Hp & ->).
  cbn [ReturnFormView.items].
  unfold FieldArray.shownTotal. symmetry.
  apply shownTotal_parsed.
  - now destruct (parse_items_entered _ Hp) as [Hq _].
  - now apply parse_items_quantities.
Qed.

Lemma shown_total_is_stored_total_witness :
  exists form,
    ReturnFormView.submittedForm
      (fst (fst (ReturnFormView.handleSubmit
                   (Samples.sample_punch punch_in 4000)
                   Samples.fresh_form_view Samples.sample_store 5000
                   Samples.two_items)))
    = Some form /\
    rf_totalItems form
    = FieldArray.shownTotal (ReturnFormView.raw_items Samples.two_items).
Proof.
  apply (shown_total_is_stored_total
           (Samples.sample_punch punch_in 4000) Samples.fresh_form_view
           Samples.sample_store 5000 Samples.two_items
           {| ReturnFormView.items :=
                [ {| itemName := "crate"; quantity := 2;
                     condition := good; notes := None |};
                  {| itemName := "pallet"; quantity := 1;
                     condition := damaged;
                     notes := Some "corner broken" |} ] |});
    reflexivity.
Defined.

(** ** The admin dashboard *)

Section AdminLists.

Lemma local_update_is_merge (formId : string) (status : Status)
  (form : ReturnForm) :
  (if String.eqb (rf_id form) formId
   then {| rf_id := rf_id form; rf_driverId := rf_driverId form;
           rf_driverName := rf_driverName form;
           rf_punchLogId := rf_punchLogId form;
           rf_items := rf_items form;
           rf_totalItems := rf_totalItems form;
           rf_submittedAt := rf_submittedAt form;
           rf_status := status |}
   else form)
  = (if has_id formId form then merge_updates (only_status status) form
     else form).
Proof. unfold has_id. destruct (String.eqb (rf_id form) formId); reflexivity. Qed.

Lemma existsb_has_id_false (formId : string) (l : list ReturnForm) :
  (forall f, f ∈ l -> rf_id f <> formId) ->
  existsb (has_id formId) l = false.
Proof.
  intros H. induction l as [| f l IH]; [reflexivity |]. simpl.
  unfold has_id at 1.
  destruct (String.eqb_spec (rf_id f) formId) as [He | Hne].
  - exfalso. apply (H f); [left | exact He].
  - apply IH. intros g Hg. apply H. now right.
Qed.

Lemma pending_after_decision (formId : string) (status : Decision)
  (l : list ReturnForm) :
  (length (AdminView.pendingForms
             (map (fun f => if has_id formId f
                            then merge_updates
                                   (only_status (status_of status)) f
                            else f) l))
   <= length (AdminView.pendingForms l))%nat.
Proof.
  unfold AdminView.pendingForms.
  induction l as [| f l IH]; simpl; [lia |].
  destruct (has_id formId f).
  - rewrite filter_cons_False.
    + destruct (decide (AdminView.is_pending f = true)).
      * rewrite filter_cons_True by assumption. simpl. lia.
      * rewrite filter_cons_False by assumption. exact IH.
    + unfold AdminView.is_pending. destruct status; discriminate.
  - destruct (decide (AdminView.is_pending f = true)).
    + rewrite !filter_cons_True by assumption. simpl. lia.
    + rewrite !filter_cons_False by assumption. exact IH.
Qed.

End AdminLists.

(** X17.  A decision button exists only on a pending form.  Pressing it
    for a form the reachable store holds gives every listed form of that
    id the chosen status, so its buttons are gone, and never lengthens the
    pending list; pressing is without any effect for a form that is not
    pending. *)
Theorem decision_buttons_decide_once
  (forms : list ReturnForm) (st : Store) (form : ReturnForm)
  (status : Decision) :
  let r := AdminView.pressDecision forms st form status in
  (AdminView.is_pending form = false -> r = (forms, st)) /\
  (length (AdminView.pendingForms (fst r))
   <= length (AdminView.pendingForms forms))%nat /\
  (AdminView.is_pending form = true -> reachable st = true ->
   (exists f, f ∈ returnForms st /\ rf_id f = rf_id form) ->
   forall g, g ∈ fst r \/ g ∈ returnForms (snd r) ->
             rf_id g = rf_id form ->
             rf_status g = status_of status /\
             AdminView.is_pending g = false).
Proof.
  intros r. subst r. unfold AdminView.pressDecision.
  destruct (AdminView.is_pending form) eqn:Hp.
  - split; [discriminate |].
    unfold AdminDashboard.updateFormStatus, updateReturnForm.
    destruct (reachable st && existsb (has_id (rf_id form)) (returnForms st))
      eqn:Hok; cbn [fst snd returnForms].
    + split.
      * erewrite map_ext by (intros a; apply local_update_is_merge).
        apply pending_after_decision.
      * intros _ _ _ g Hg Hid.
        assert (Hst : rf_status g = status_of status).
        { destruct Hg as [Hg | Hg]; apply list_elem_of_fmap in Hg
            as (g0 & -> & _).
          - destruct (String.eqb_spec (rf_id g0) (rf_id form));
              [reflexivity |]. contradiction.
          - unfold has_id in *.
            destruct (String.eqb_spec (rf_id g0) (rf_id form));
              [reflexivity |]. contradiction. }
        split; [exact Hst |]. unfold AdminView.is_pending. rewrite Hst.
        destruct status; reflexivity.
    + split; [lia |]. intros _ Hr (f & Hin & Hid). exfalso.
      rewrite Hr, (existsb_has_id (rf_id form) _ f Hin Hid) in Hok.
      discriminate.
  - split; [reflexivity |]. split; [simpl; lia | discriminate].
Qed.

(** X18.  When the store cannot be reached or holds no form of the given
    id, [updateFormStatus] changes neither the store nor the dashboard's
    list, even if that list shows a form of this id. *)
Theorem failed_transition_changes_nothing
  (forms : list ReturnForm) (st : Store) (formId : string)
  (status : Decision) :
  reachable st = false \/
  (forall f, f ∈ returnForms st -> rf_id f <> formId) ->
  AdminDashboard.updateFormStatus forms st formId status = (forms, st).
Proof.
  intros H. unfold AdminDashboard.updateFormStatus, updateReturnForm.
  destruct H as [-> | H]; [reflexivity |].
  rewrite (existsb_has_id_false formId _ H), andb_false_r. reflexivity.
Qed.

Lemma failed_transition_changes_nothing_witness :
  AdminDashboard.updateFormStatus [Samples.sample_form pending]
    Samples.sample_store "f1" decide_approved
  = ([Samples.sample_form pending], Samples.sample_store).
Proof.
  apply (failed_transition_changes_nothing [Samples.sample_form pending]
           Samples.sample_store "f1" decide_approved).
  right. intros f Hf. inversion Hf.
Defined.

(** X19.  If the dashboard's list is the snapshot of the store, then after
    a successful status transition the locally updated list is again the
    snapshot of the updated store: the optimistic update and the next
    push agree. *)
Theorem local_update_agrees_with_snapshot
  (st : Store) (formId : string) (status : Decision) :
  reachable st = true ->
  (exists f, f ∈ returnForms st /\ rf_id f = formId) ->
  fst (AdminDashboard.updateFormStatus
         (Collections.subscribeToReturnForms st) st formId status)
  = Collections.subscribeToReturnForms
      (snd (AdminDashboard.updateFormStatus
              (Collections.subscribeToReturnForms st) st formId status)).
Proof.
  intros Hr (f & Hin & Hid).
  unfold AdminDashboard.updateFormStatus, updateReturnForm.
  rewrite Hr, (existsb_has_id formId _ f Hin Hid).
  cbn [andb fst snd]. unfold Collections.subscribeToReturnForms.
  cbn [returnForms].
  erewrite map_ext by (intros a; apply local_update_is_merge).
  symmetry. apply orderBy_desc_map.
  - intros x. destruct (has_id formId x); reflexivity.
  - intros x. destruct (has_id formId x); reflexivity.
Qed.

Lemma local_update_agrees_with_snapshot_witness :
  fst (AdminDashboard.updateFormStatus
         (Collections.subscribeToReturnForms
            (Samples.store_with_form pending))
         (Samples.store_with_form pending) "f1" decide_approved)
  = Collections.subscribeToReturnForms
      (snd (AdminDashboard.updateFormStatus
              (Collections.subscribeToReturnForms
                 (Samples.store_with_form pending))
              (Samples.store_with_form pending) "f1" decide_approved)).
Proof.
  apply (local_update_agrees_with_snapshot
           (Samples.store_with_form pending) "f1" decide_approved).
  - reflexivity.
  - exists (Samples.sample_form pending). split; [left | reflexivity].
Defined.

(** ** The driver dashboard *)

Section SessionFlow.

Lemma session_step_invariant (s : DriverDashboard.State)
  (e : Session.Event) :
  (DriverDashboard.showReturnForm s = true ->
   exists p, DriverDashboard.currentPunchLog s = Some p /\
             pl_type p = punch_in) ->
  DriverDashboard.showReturnForm (Session.step s e) = true ->
  exists p, DriverDashboard.currentPunchLog (Session.step s e) = Some p /\
            pl_type p = punch_in.
Proof.
  intros _. destruct e as [punchLog |]; simpl.
  - unfold DriverDashboard.handlePunchSuccess.
    destruct (pl_type punchLog) eqn:Ht; simpl; [eauto | discriminate].
  - discriminate.
Qed.

Lemma session_run_invariant (evs : list Session.Event)
  (s : DriverDashboard.State) :
  (DriverDashboard.showReturnForm s = true ->
   exists p, DriverDashboard.currentPunchLog s = Some p /\
             pl_type p = punch_in) ->
  DriverDashboard.showReturnForm (fold_left Session.step evs s) = true ->
  exists p, DriverDashboard.currentPunchLog (fold_left Session.step evs s)
            = Some p /\ pl_type p = punch_in.
Proof.
  revert s. induction evs as [| e evs IH]; intros s Hs; [exact Hs |].
  simpl. apply IH. now apply session_step_invariant.
Qed.

End SessionFlow.

(** X20.  Whatever punches succeed and forms are submitted, the driver
    dashboard shows exactly one of the punch panel and the return form;
    the return form is shown for a punch-in only, and while it is shown
    the punch panel, hence punching out, is not available. *)
Theorem dashboard_shows_exactly_one_view (evs : list Session.Event) :
  let s := Session.run evs in
  xorb (DriverDashboard.punchPanelShown s) (Session.returnFormShown s)
  = true /\
  (Session.returnFormShown s = true ->
   exists p, DriverDashboard.returnFormSession s = Some p /\
             pl_type p = punch_in) /\
  (DriverDashboard.currentPunchLog s = None ->
   DriverDashboard.punchPanelShown s = true).
Proof.
  intros s.
  assert (Hinv : DriverDashboard.showReturnForm s = true ->
                 exists p, DriverDashboard.currentPunchLog s = Some p /\
                           pl_type p = punch_in).
  { apply session_run_invariant. discriminate. }
  unfold DriverDashboard.punchPanelShown, Session.returnFormShown,
    DriverDashboard.returnFormSession.
  destruct (DriverDashboard.showReturnForm s) eqn:Hshow; simpl.
  - destruct (Hinv eq_refl) as (p & Hp & Ht). rewrite Hp. simpl.
    split; [reflexivity |]. split; [eauto | discriminate].
  - split; [reflexivity |]. split; [discriminate | reflexivity].
Qed.

(** ** Sign-in state and routes *)

(** X21.  [ProtectedRoute] renders nothing exactly when its effect sends
    the router elsewhere, and its children only to a loaded user whose
    role field is the required one; after a sign-out it renders nothing,
    sends to the login page, and the dashboard page shows no dashboard. *)
Theorem protected_route_blank_iff_redirect
  (st : Store) (s : Routing.AuthState) (requiredRole : option Role) :
  (Routing.ProtectedRoute s requiredRole = Routing.Blank <->
   is_Some (Routing.redirect s requiredRole)) /\
  (Routing.ProtectedRoute s requiredRole = Routing.Children ->
   Routing.loading s = false /\
   exists u, Routing.user s = Some u /\
             forall r, requiredRole = Some r ->
                       u !! "role" = Some (VStr (Routing.role_name r))) /\
  (let s' := Routing.onAuthStateChanged st s None in
   Routing.ProtectedRoute s' requiredRole = Routing.Blank /\
   Routing.redirect s' requiredRole = Some "/login" /\
   Routing.DashboardPage s' = None).
Proof.
  unfold Routing.ProtectedRoute, Routing.redirect.
  split; [| split].
  - destruct (Routing.loading s).
    + split; [discriminate | intros [x H]; discriminate].
    + destruct (Routing.user s) as [u |]; [| split; eauto].
      destruct (Routing.role_mismatch u requiredRole);
        split; eauto; try discriminate. intros [x H]. discriminate.
  - destruct (Routing.loading s); [discriminate |].
    destruct (Routing.user s) as [u |]; [| discriminate].
    destruct (Routing.role_mismatch u requiredRole) eqn:Hm;
      [discriminate |].
    intros _. split; [reflexivity |]. exists u. split; [reflexivity |].
    intros r ->. unfold Routing.role_mismatch, strict_eq_string in Hm.
    apply negb_false_iff in Hm.
    destruct (u !! "role") as [[| | | t | |] |]; try discriminate.
    apply String.eqb_eq in Hm. now subst t.
  - repeat split.
Qed.

(** X22.  When the record of the account that signs in cannot be read,
    the user record of the previous account stays in place, and the
    dashboard page goes on showing that account's dashboard. *)
Theorem unreadable_account_keeps_previous_user
  (st : Store) (s : Routing.AuthState) (uid : string) :
  Collections.getUser st uid = None ->
  let s' := Routing.onAuthStateChanged st s (Some uid) in
  Routing.user s' = Routing.user s /\
  Routing.firebaseUser s' = Some uid /\
  Routing.loading s' = false /\
  (Routing.loading s = false ->
   Routing.DashboardPage s' = Routing.DashboardPage s).
Proof.
  intros Hu s'. subst s'. unfold Routing.onAuthStateChanged. rewrite Hu.
  repeat split.
  unfold Routing.DashboardPage, Routing.ProtectedRoute. simpl.
  now intros ->.
Qed.

Lemma unreadable_account_keeps_previous_user_witness :
  Routing.user
    (Routing.onAuthStateChanged Samples.sample_store
       {| Routing.user := Some MoreSamples.signup_record;
          Routing.firebaseUser := Some "uid1"; Routing.loading := false |}
       (Some "uid9"))
  = Some MoreSamples.signup_record.
Proof.
  apply (unreadable_account_keeps_previous_user Samples.sample_store
           {| Routing.user := Some MoreSamples.signup_record;
              Routing.firebaseUser := Some "uid1";
              Routing.loading := false |} "uid9").
  reflexivity.
Defined.

(** X23.  [handleSignUp] calls [signUp] only with matching passwords; a
    driver account is signed up with its non-empty driver id and an admin
    account without any, whatever was typed into the driver id field.  The
    router is sent to the dashboard exactly when the call resolved, and
    exactly then no error is shown. *)
Theorem sign_up_form_guards
  (signUp : Routing.SignUpCall -> option (option string))
  (signUpData : Routing.SignUpData) :
  let r := Routing.handleSignUp signUp signUpData in
  (forall call, Routing.called r = Some call ->
     Routing.password signUpData = Routing.confirmPassword signUpData /\
     Routing.call_role call = Routing.role signUpData /\
     match Routing.role signUpData with
     | role_driver =>
         Routing.call_driverId call = Some (Routing.driverId signUpData) /\
         Routing.driverId signUpData <> ""
     | role_admin => Routing.call_driverId call = None
     end) /\
  (Routing.toDashboard r = true <->
   exists call, Routing.called r = Some call /\ signUp call = None) /\
  (Routing.toDashboard r = true <-> Routing.error r = "").
Proof.
  intros r. subst r. unfold Routing.handleSignUp.
  destruct (String.eqb_spec (Routing.password signUpData)
              (Routing.confirmPassword signUpData)) as [Hpw | Hpw];
    simpl;
    destruct (Routing.role signUpData) eqn:Hrole; simpl;
    try destruct (String.eqb_spec (Routing.driverId signUpData) "")
      as [Hid | Hid];
    simpl;
    try (destruct (signUp _) as [[m |] |] eqn:Hs; simpl);
    try destruct (String.eqb_spec m "") as [Hm | Hm];
    (split;
     [ intros call Hc; try discriminate; injection Hc as <-; simpl; auto
     | split; split; intros H; try discriminate; try congruence; eauto;
       try (destruct H as (c & Hc & Hn); try discriminate;
            injection Hc as <-; congruence) ]).
Qed.

(** ** Users and the driver directory *)

Section Documents.

Lemma filter_place {P : (string * gmap string value) -> Prop}
  `{!forall d, base.Decision (P d)} (pos : nat) (d : string * gmap string value)
  (c : list (string * gmap string value)) :
  filter P (Collections.place pos d c)
  = filter P (take pos c) ++ filter P [d] ++ filter P (drop pos c).
Proof.
  unfold Collections.place. rewrite filter_app.
  change (d :: drop pos c) with ([d] ++ drop pos c).
  now rewrite filter_app.
Qed.

Lemma filter_take_drop_nil {P : (string * gmap string value) -> Prop}
  `{!forall d, base.Decision (P d)} (pos : nat)
  (c : list (string * gmap string value)) :
  filter P c = [] ->
  filter P (take pos c) = [] /\ filter P (drop pos c) = [].
Proof.
  intros Hnil. rewrite <- (take_drop pos c), filter_app in Hnil.
  now apply app_eq_nil in Hnil.
Qed.

Lemma getDoc_place_other (pos : nat) (d : string * gmap string value)
  (c : list (string * gmap string value)) (id : string) :
  fst d <> id ->
  Collections.getDoc (Collections.place pos d c) id
  = Collections.getDoc c id.
Proof.
  intros Hne. unfold Collections.getDoc. rewrite filter_place.
  rewrite (filter_cons_False _ d) by exact Hne. rewrite filter_nil.
  simpl. rewrite <- filter_app. now rewrite take_drop.
Qed.

Lemma getDoc_place_fresh (pos : nat) (d : string * gmap string value)
  (c : list (string * gmap string value)) :
  Collections.getDoc c (fst d) = None ->
  Collections.getDoc (Collections.place pos d c) (fst d) = Some d.
Proof.
  unfold Collections.getDoc. intros Hnone. apply head_None in Hnone.
  destruct (filter_take_drop_nil pos c Hnone) as [Ht Hd].
  rewrite filter_place, Ht, Hd.
  rewrite (filter_cons_True _ d) by reflexivity. reflexivity.
Qed.

Lemma getDoc_updateDoc_in (c : list (string * gmap string value))
  (id id' : string) (updates : gmap string value) :
  Collections.getDoc (Collections.updateDoc_in c id updates) id'
  = (fun d => if String.eqb (fst d) id then (fst d, updates ∪ snd d)
              else d) <$> Collections.getDoc c id'.
Proof.
  unfold Collections.getDoc, Collections.updateDoc_in.
  set (f := fun d : string * gmap string value =>
              if String.eqb (fst d) id then (fst d, updates ∪ snd d)
              else d).
  assert (Hf : forall d, fst (f d) = fst d).
  { intros d. unfold f. destruct (String.eqb (fst d) id); reflexivity. }
  induction c as [| d c IH]; [reflexivity |]. simpl.
  destruct (decide (fst d = id')) as [Hd | Hd].
  - rewrite (filter_cons_True _ d) by exact Hd.
    rewrite (filter_cons_True _ (f d)) by (now rewrite Hf).
    reflexivity.
  - rewrite (filter_cons_False _ d) by exact Hd.
    rewrite (filter_cons_False _ (f d)) by (now rewrite Hf).
    exact IH.
Qed.

Lemma has_doc_getDoc (c : list (string * gmap string value)) (id : string)
  (d : string * gmap string value) :
  Collections.getDoc c id = Some d ->
  Collections.has_doc c id = true /\ fst d = id.
Proof.
  unfold Collections.getDoc, Collections.has_doc. intros Hget.
  assert (Hin : d ∈ filter (fun x => fst x = id) c).
  { destruct (filter _ c) as [| x l]; [discriminate |].
    injection Hget as ->. left. }
  apply list_elem_of_filter in Hin as [Hid Hin].
  split; [| exact Hid]. apply existsb_exists. exists d.
  split; [now apply list_elem_of_In | now apply String.eqb_eq].
Qed.

Lemma spread_with_id_update (id : string) (updates data : gmap string value) :
  spread_with_id (id, updates ∪ data) = updates ∪ spread_with_id (id, data).
Proof.
  unfold spread_with_id. simpl. now rewrite (assoc_L (∪)).
Qed.

End Documents.

(** X24.  [signUp] of a driver account files the user record under a
    generated document id and keeps the uid as its [id] field: [getUser]
    under the uid finds nothing, so the sign-in state stays without a user
    and a protected route sends to the login page.  [signUp] of an admin
    account, or without a driver id, hands [createUser] an object with an
    undefined [driverId]: it rejects and nothing is stored. *)
Theorem signed_up_user_is_not_found_by_uid
  (st : Store) (uid : string) (call : Routing.SignUpCall) (now : Z)
  (pos : nat) :
  reachable st = true ->
  Collections.getDoc (users st) uid = None ->
  Collections.getDoc (users st) (autoId st (issued st)) = None ->
  autoId st (issued st) <> uid ->
  let r := Routing.signUp st (Resolved uid) call now pos in
  (forall driverId,
     Routing.call_role call = role_driver ->
     Routing.call_driverId call = Some driverId ->
     fst r = Resolved tt /\
     (exists record,
        Collections.getUser (snd r) (autoId st (issued st)) = Some record /\
        record !! "id" = Some (VStr uid) /\
        record !! "driverId" = Some (VStr driverId)) /\
     Collections.getUser (snd r) uid = None /\
     (forall requiredRole,
        Routing.redirect
          (Routing.onAuthStateChanged (snd r) Routing.initial (Some uid))
          requiredRole = Some "/login")) /\
  (Routing.call_role call = role_admin \/
   Routing.call_driverId call = None ->
   r = (Rejected, st)).
Proof.
  intros Hr Hnone Hnew Hfresh r. subst r. unfold Routing.signUp. split.
  - intros driverId Hrole Hid. rewrite Hrole, Hid.
    unfold Collections.createUser. rewrite Hr. cbn [fst snd].
    set (userData := ({[ "id" := VStr uid;
                         "email" := VStr (Routing.call_email call);
                         "role" := VStr (Routing.role_name role_driver);
                         "driverId" := VStr driverId ]}
                      : gmap string value)).
    set (st' := {| reachable := true |}).
    assert (Hget : Collections.getUser st' uid = None).
    { unfold Collections.getUser, st'. cbn [reachable users].
      rewrite getDoc_place_other by exact Hfresh. now rewrite Hnone. }
    split; [reflexivity |]. split; [| split; [exact Hget |]].
    + unfold Collections.getUser, st'. cbn [reachable users].
      pose proof (getDoc_place_fresh pos
                    (autoId st (issued st),
                     <["createdAt" := VTime now]> userData) (users st))
        as Hfound.
      cbn [fst] in Hfound. rewrite (Hfound Hnew).
      eexists. split; [reflexivity |].
      unfold Collections.mapDoc. rewrite !spread_with_id_lookup.
      cbn [snd]. split; reflexivity.
    + intros requiredRole.
      unfold Routing.onAuthStateChanged, Routing.redirect.
      rewrite Hget. reflexivity.
  - intros [Hrole | Hid]; [now rewrite Hrole |].
    rewrite Hid. now destruct (Routing.call_role call).
Qed.

Lemma signed_up_user_is_not_found_by_uid_witness :
  Collections.getUser
    (snd (Routing.signUp Samples.sample_store (Resolved "uid7")
            MoreSamples.signup_call 2000 0)) "uid7" = None.
Proof.
  refine (proj1 (proj2 (proj2
            (proj1 (signed_up_user_is_not_found_by_uid Samples.sample_store
                      "uid7" MoreSamples.signup_call 2000 0
                      eq_refl eq_refl eq_refl _)
               "D7" eq_refl eq_refl)))).
  discriminate.
Defined.

(** X25.  After [createUser] of a record with a driver id and the role
    ['driver'], when no earlier user record answers to that driver id,
    [getDriverByDriverId] returns the new record, wherever the store
    lists it: it carries a PIN, a name or a face descriptor exactly if
    the object passed to [createUser] did. *)
Theorem created_driver_user_is_looked_up
  (st : Store) (userData : gmap string value) (now : Z) (pos : nat)
  (driverId : string) :
  reachable st = true ->
  userData !! "driverId" = Some (VStr driverId) ->
  userData !! "role" = Some (VStr "driver") ->
  (forall u, u ∈ users st -> driver_query driverId u = false) ->
  exists r,
    getDriverByDriverId
      (snd (Collections.createUser st userData now pos)) driverId = Some r /\
    r !! "createdAt" = Some (VTime now) /\
    forall f, f <> "createdAt" -> f <> "id" -> r !! f = userData !! f.
Proof.
  intros Hr Hd Hrole Hnone.
  unfold Collections.createUser. rewrite Hr. cbn [snd].
  unfold getDriverByDriverId. cbn [reachable users].
  apply filter_none in Hnone.
  destruct (filter_take_drop_nil pos (users st) Hnone) as [Ht Hdrop].
  rewrite filter_place, Ht, Hdrop.
  rewrite filter_cons_True.
  - simpl. eexists. split; [reflexivity |].
    split.
    + rewrite spread_with_id_lookup. simpl.
      now rewrite lookup_insert_eq.
    + intros f Hf Hf'. rewrite spread_with_id_lookup. simpl.
      rewrite lookup_insert_ne by congruence.
      destruct (userData !! f); [reflexivity |].
      destruct (decide (f = "id")); [contradiction | reflexivity].
  - unfold driver_query, where_eq. simpl.
    rewrite !lookup_insert_ne by discriminate. rewrite Hd, Hrole. simpl.
    rewrite String.eqb_refl. reflexivity.
Qed.

Lemma created_driver_user_is_looked_up_witness :
  exists r,
    getDriverByDriverId
      (snd (Collections.createUser Samples.sample_store
              MoreSamples.signup_userData 2000 1)) "D7" = Some r /\
    r !! "createdAt" = Some (VTime 2000) /\
    forall f, f <> "createdAt" -> f <> "id" ->
              r !! f = MoreSamples.signup_userData !! f.
Proof.
  apply (created_driver_user_is_looked_up Samples.sample_store
           MoreSamples.signup_userData 2000 1 "D7").
  - reflexivity.
  - reflexivity.
  - reflexivity.
  - intros u Hu. apply list_elem_of_singleton in Hu. subst u. reflexivity.
Defined.

(** X26.  Creating, updating and deleting entries of the driver directory
    never changes what the punch panel reads: the driver record looked up
    by driver id, the last punch, and the users, ledger and forms are the
    same before and after. *)
Theorem driver_directory_never_reaches_panel
  (st : Store) (driverData updates : gmap string value)
  (stamp date : Z) (pos : nat) (id : string) :
  Forall
    (fun st' =>
       (forall driverId,
          getDriverByDriverId st' driverId
          = getDriverByDriverId st driverId) /\
       (forall driverId,
          getLastPunchLog st' driverId = getLastPunchLog st driverId) /\
       users st' = users st /\ punchLogs st' = punchLogs st /\
       returnForms st' = returnForms st)
    [ snd (Collections.createDriver st driverData stamp date pos);
      snd (Collections.updateDriver st id updates);
      snd (Collections.deleteDriver st id) ].
Proof.
  assert (Hsame : forall ds : list (string * gmap string value),
            (forall driverId,
               getDriverByDriverId (Collections.with_drivers st ds) driverId
               = getDriverByDriverId st driverId) /\
            (forall driverId,
               getLastPunchLog (Collections.with_drivers st ds) driverId
               = getLastPunchLog st driverId) /\
            users (Collections.with_drivers st ds) = users st /\
            punchLogs (Collections.with_drivers st ds) = punchLogs st /\
            returnForms (Collections.with_drivers st ds) = returnForms st).
  { intros ds. repeat split. }
  assert (Hid : (forall driverId,
                   getDriverByDriverId st driverId
                   = getDriverByDriverId st driverId) /\
                (forall driverId,
                   getLastPunchLog st driverId
                   = getLastPunchLog st driverId) /\
                users st = users st /\ punchLogs st = punchLogs st /\
                returnForms st = returnForms st).
  { repeat split. }
  constructor; [| constructor; [| constructor; [| constructor]]].
  - unfold Collections.createDriver.
    destruct (reachable st) eqn:Hr; [| exact Hid].
    cbn [snd]. unfold getDriverByDriverId, getLastPunchLog.
    cbn [reachable users punchLogs returnForms]. rewrite Hr.
    repeat split.
  - unfold Collections.updateDriver.
    destruct (reachable st && _); [apply Hsame | exact Hid].
  - unfold Collections.deleteDriver.
    destruct (reachable st); [apply Hsame | exact Hid].
Qed.

(** X27.  A driver created under a fresh id is read back by [getDriver]
    under that id as the record [createDriver] returned, up to the creation
    time (the stored stamp instead of the returned date), and it is always
    active, whatever [isActive] the caller passed. *)
Theorem created_driver_is_read_back
  (st : Store) (driverData : gmap string value) (stamp date : Z)
  (pos : nat) :
  reachable st = true ->
  Collections.getDoc (drivers st) (autoId st (issued st)) = None ->
  let r := Collections.createDriver st driverData stamp date pos in
  exists returned found,
    fst r = Resolved returned /\
    Collections.getDriver (snd r) (autoId st (issued st)) = Some found /\
    found !! "isActive" = Some (VBool true) /\
    returned !! "isActive" = Some (VBool true) /\
    found !! "createdAt" = Some (VTime stamp) /\
    returned !! "createdAt" = Some (VTime date) /\
    forall f, f <> "createdAt" -> found !! f = returned !! f.
Proof.
  intros Hr Hfresh r. subst r.
  unfold Collections.createDriver. rewrite Hr. cbn [fst snd].
  unfold Collections.getDriver. cbn [reachable drivers].
  pose proof (getDoc_place_fresh pos
                (autoId st (issued st),
                 <["isActive" := VBool true]>
                   (<["createdAt" := VTime stamp]> driverData))
                (drivers st) Hfresh) as Hget.
  cbn [fst] in Hget. rewrite Hget.
  eexists. eexists. split; [reflexivity |]. split; [reflexivity |].
  unfold Collections.mapDoc. rewrite !spread_with_id_lookup.
  cbn [fst snd].
  rewrite !lookup_insert_eq.
  rewrite (lookup_insert_ne _ "isActive" "createdAt") by discriminate.
  rewrite !lookup_insert_eq.
  split; [reflexivity |]. split; [reflexivity |]. split; [reflexivity |].
  split.
  { rewrite lookup_insert_ne by discriminate. apply lookup_insert_eq. }
  intros f Hf. rewrite spread_with_id_lookup. cbn [fst snd].
  destruct (decide (f = "isActive")) as [-> | Hact].
  - now rewrite !lookup_insert_eq.
  - rewrite !(lookup_insert_ne _ "isActive" f) by congruence.
    rewrite !(lookup_insert_ne _ "createdAt" f) by congruence.
    rewrite lookup_union.
    destruct (driverData !! f) as [v |] eqn:Hv.
    + now destruct ({[ "id" := VStr (autoId st (issued st)) ]} !! f).
    + rewrite (left_id_L None _). rewrite lookup_singleton.
      destruct (decide (f = "id")); destruct (decide ("id" = f));
        congruence.
Qed.

Lemma created_driver_is_read_back_witness :
  exists returned found,
    fst (Collections.createDriver Samples.sample_store
           MoreSamples.new_driverData 2000 2001 0) = Resolved returned /\
    Collections.getDriver
      (snd (Collections.createDriver Samples.sample_store
              MoreSamples.new_driverData 2000 2001 0))
      (autoId Samples.sample_store (issued Samples.sample_store))
    = Some found /\
    found !! "isActive" = Some (VBool true) /\
    returned !! "isActive" = Some (VBool true) /\
    found !! "createdAt" = Some (VTime 2000) /\
    returned !! "createdAt" = Some (VTime 2001) /\
    forall f, f <> "createdAt" -> found !! f = returned !! f.
Proof.
  apply (created_driver_is_read_back Samples.sample_store
           MoreSamples.new_driverData 2000 2001 0);
    reflexivity.
Defined.

(** X28.  After [deleteDriver] on a reachable store, [getDriver] finds
    nothing under the deleted id and what it found before under every
    other id; deleting an id that is not there succeeds all the same. *)
Theorem deleted_driver_is_gone (st : Store) (id : string) :
  reachable st = true ->
  fst (Collections.deleteDriver st id) = Resolved tt /\
  Collections.getDriver (snd (Collections.deleteDriver st id)) id = None /\
  forall other, other <> id ->
    Collections.getDriver (snd (Collections.deleteDriver st id)) other
    = Collections.getDriver st other.
Proof.
  intros Hr. unfold Collections.deleteDriver. rewrite Hr. cbn [fst snd].
  split; [reflexivity |].
  unfold Collections.getDriver, Collections.getDoc.
  cbn [reachable drivers Collections.with_drivers]. rewrite Hr.
  split.
  - assert (Hnil : filter (fun d : string * gmap string value => fst d = id)
                     (filter (fun d : string * gmap string value =>
                                negb (String.eqb (fst d) id) = true)
                             (drivers st)) = []).
    { induction (drivers st) as [| d c IH]; [reflexivity |].
      destruct (String.eqb_spec (fst d) id) as [He | Hne].
      - rewrite (filter_cons_False _ d); [exact IH |].
        apply String.eqb_eq in He. rewrite He. discriminate.
      - rewrite (filter_cons_True _ d).
        + rewrite (filter_cons_False _ d) by exact Hne. exact IH.
        + apply String.eqb_neq in Hne. now rewrite Hne. }
    now rewrite Hnil.
  - intros other Hother. f_equal.
    induction (drivers st) as [| d c IH]; [reflexivity |].
    destruct (String.eqb_spec (fst d) id) as [He | Hne].
    + rewrite (filter_cons_False _ d).
      * rewrite (filter_cons_False _ d) by congruence. exact IH.
      * apply String.eqb_eq in He. rewrite He. discriminate.
    + rewrite (filter_cons_True _ d).
      * destruct (decide (fst d = other)) as [Ho | Ho].
        -- rewrite !(filter_cons_True _ d) by exact Ho. reflexivity.
        -- rewrite !(filter_cons_False _ d) by exact Ho. exact IH.
      * apply String.eqb_neq in Hne. now rewrite Hne.
Qed.

Lemma deleted_driver_is_gone_witness :
  Collections.getDriver
    (snd (Collections.deleteDriver Samples.sample_store "drv1")) "drv1"
  = None.
Proof.
  apply (deleted_driver_is_gone Samples.sample_store "drv1").
  reflexivity.
Defined.

(** X29.  [updateUser] and [updateDriver] on a record that is there
    resolve, and the record read back is the old one with the listed
    fields overwritten; every other record reads as before.  On a record
    that is not there they reject and change nothing. *)
Theorem update_then_get_merges
  (st : Store) (id : string) (updates : gmap string value) :
  reachable st = true ->
  (forall old, Collections.getUser st id = Some old ->
     fst (Collections.updateUser st id updates) = Resolved tt /\
     Collections.getUser (snd (Collections.updateUser st id updates)) id
     = Some (updates ∪ old)) /\
  (forall old, Collections.getDriver st id = Some old ->
     fst (Collections.updateDriver st id updates) = Resolved tt /\
     Collections.getDriver (snd (Collections.updateDriver st id updates)) id
     = Some (updates ∪ old)) /\
  (forall other, other <> id ->
     Collections.getUser (snd (Collections.updateUser st id updates)) other
     = Collections.getUser st other /\
     Collections.getDriver (snd (Collections.updateDriver st id updates))
       other
     = Collections.getDriver st other) /\
  (Collections.has_doc (users st) id = false ->
   Collections.updateUser st id updates = (Rejected, st)) /\
  (Collections.has_doc (drivers st) id = false ->
   Collections.updateDriver st id updates = (Rejected, st)).
Proof.
  intros Hr.
  assert (Hmerge : forall c old,
            match Collections.getDoc c id with
            | Some d => Some (Collections.mapDoc d ["createdAt"])
            | None => None
            end = Some old ->
            Collections.has_doc c id = true /\
            match Collections.getDoc
                    (Collections.updateDoc_in c id updates) id with
            | Some d => Some (Collections.mapDoc d ["createdAt"])
            | None => None
            end = Some (updates ∪ old)).
  { intros c old Hold.
    destruct (Collections.getDoc c id) as [d |] eqn:Hd; [| discriminate].
    destruct (has_doc_getDoc c id d Hd) as [Hhas Hfst].
    split; [exact Hhas |].
    rewrite getDoc_updateDoc_in, Hd. simpl.
    apply String.eqb_eq in Hfst as Heq. rewrite Heq.
    injection Hold as <-. unfold Collections.mapDoc.
    destruct d as [i data]. simpl. now rewrite spread_with_id_update. }
  assert (Hother : forall c other, other <> id ->
            match Collections.getDoc
                    (Collections.updateDoc_in c id updates) other with
            | Some d => Some (Collections.mapDoc d ["createdAt"])
            | None => None
            end
            = match Collections.getDoc c other with
              | Some d => Some (Collections.mapDoc d ["createdAt"])
              | None => None
              end).
  { intros c other Hne. rewrite getDoc_updateDoc_in.
    destruct (Collections.getDoc c other) as [d |] eqn:Hd; [| reflexivity].
    simpl. destruct (has_doc_getDoc c other d Hd) as [_ Hfst].
    destruct (String.eqb_spec (fst d) id); [congruence | reflexivity]. }
  split; [| split; [| split; [| split]]].
  - intros old Hold. unfold Collections.getUser in Hold. rewrite Hr in Hold.
    destruct (Hmerge _ _ Hold) as [Hhas Hget].
    unfold Collections.updateUser. rewrite Hr, Hhas. cbn [andb fst snd].
    split; [reflexivity |]. unfold Collections.getUser.
    cbn [reachable users Collections.with_users]. now rewrite Hr.
  - intros old Hold. unfold Collections.getDriver in Hold.
    rewrite Hr in Hold. destruct (Hmerge _ _ Hold) as [Hhas Hget].
    unfold Collections.updateDriver. rewrite Hr, Hhas. cbn [andb fst snd].
    split; [reflexivity |]. unfold Collections.getDriver.
    cbn [reachable drivers Collections.with_drivers]. now rewrite Hr.
  - intros other Hne. split.
    + unfold Collections.updateUser. rewrite Hr. cbn [andb].
      destruct (Collections.has_doc (users st) id); [| reflexivity].
      unfold Collections.getUser.
      cbn [snd reachable users Collections.with_users]. rewrite Hr.
      now apply Hother.
    + unfold Collections.updateDriver. rewrite Hr. cbn [andb].
      destruct (Collections.has_doc (drivers st) id); [| reflexivity].
      unfold Collections.getDriver.
      cbn [snd reachable drivers Collections.with_drivers]. rewrite Hr.
      now apply Hother.
  - intros Hno. unfold Collections.updateUser.
    now rewrite Hno, andb_false_r.
  - intros Hno. unfold Collections.updateDriver.
    now rewrite Hno, andb_false_r.
Qed.

Lemma update_then_get_merges_witness :
  fst (Collections.updateUser Samples.sample_store "uid1"
         {[ "pin" := VStr "1234" ]}) = Resolved tt /\
  Collections.getUser
    (snd (Collections.updateUser Samples.sample_store "uid1"
            {[ "pin" := VStr "1234" ]})) "uid1"
  = Some ({[ "pin" := VStr "1234" ]} ∪ MoreSamples.signup_record).
Proof.
  apply (update_then_get_merges Samples.sample_store "uid1"
           {[ "pin" := VStr "1234" ]}).
  - reflexivity.
  - vm_compute. reflexivity.
Defined.
